(** * fhir-schema (JavaScript binding): package loading utilities

  A shallow embedding of [fhirschema-js/src/utils.js] (the Node
  implementation, built on [https] and [zlib]), of its browser twin
  (built on [fetch] and [DecompressionStream]) and of the declaration
  file [fhirschema-js/src/index.d.ts], with the properties of the
  specification that concern them. *)

From Stdlib Require Import Ascii String ZArith.
From Stdlib.Strings Require Import Byte.
From stdpp Require Import base option list gmap strings fin_maps.

Set Warnings "-register-all,-clear-no-such-hyp".
Local Open Scope Z_scope.
Local Open Scope stdpp_scope.

(* ===================================================================== *)
(** * Definitions *)
(* ===================================================================== *)

(** ** JavaScript strings

    A string is the sequence of its code units, here the ones below 256
    (one [ascii] each). *)
Module JsString.

Definition length (s : string) : Z := Z.of_nat (String.length s).

(** [s.slice(start, end)]: a negative index counts from the end, an index
    past the end is the end, and an empty range is the empty string. *)
Definition slice (s : string) (start end_ : Z) : string :=
  let len := length s in
  let from := if start <? 0 then Z.max (len + start) 0 else Z.min start len in
  let to := if end_ <? 0 then Z.max (len + end_) 0 else Z.min end_ len in
  String.substring (Z.to_nat from) (Z.to_nat (Z.max (to - from) 0)) s.

(** [s.slice(start)] *)
Definition slice_from (s : string) (start : Z) : string :=
  slice s start (length s).

(** Whether [s] starts with [searchString]. *)
Fixpoint starts_with (searchString s : string) : bool :=
  match searchString, s with
  | EmptyString, _ => true
  | String a searchString, String b s =>
      bool_decide (a = b) && starts_with searchString s
  | String _ _, EmptyString => false
  end.

(** [s.indexOf(searchString)]: the first position where [searchString]
    starts, or [-1]. *)
Fixpoint indexOf_at (searchString s : string) (position : Z) : Z :=
  if starts_with searchString s then position
  else match s with
       | EmptyString => -1
       | String _ s' => indexOf_at searchString s' (position + 1)
       end.

Definition indexOf (s searchString : string) : Z := indexOf_at searchString s 0.

(** [s.includes(searchString)] *)
Definition includes (s searchString : string) : bool :=
  negb (indexOf s searchString =? -1).

(** White space and line terminators of ECMAScript among the code units
    below 256: TAB, LF, VT, FF, CR, SP and NBSP. *)
Definition isWhiteSpace (c : ascii) : bool :=
  match c with
  | "009" | "010" | "011" | "012" | "013" | " " | "160" => true
  | _ => false
  end%char.

Fixpoint trimStart (s : string) : string :=
  match s with
  | EmptyString => EmptyString
  | String c s' => if isWhiteSpace c then trimStart s' else s
  end.

Fixpoint trimEnd (s : string) : string :=
  match s with
  | EmptyString => EmptyString
  | String c s' =>
      match trimEnd s' with
      | EmptyString => if isWhiteSpace c then EmptyString else String c EmptyString
      | t => String c t
      end
  end.

(** [s.trim()] *)
Definition trim (s : string) : string := trimEnd (trimStart s).

(** The line feed, ["\n"] in the source. *)
Definition LF : string := String "010" EmptyString.

End JsString.

(** ** JavaScript values read from JSON *)

(** Numbers are IEEE doubles; the code only tests them for truthiness and
    turns them into property keys. *)
Class JsNumber := {
  Number : Type;
  Number_toBoolean : Number → bool;
  Number_toString : Number → string
}.

Inductive Error := SyntaxError | TypeError.

(** The completion of an expression or statement: a value, or a thrown
    error. *)
Inductive Completion (A : Type) :=
| Normal (a : A)
| Throw (e : Error).
Arguments Normal {A} a.
Arguments Throw {A} e.

#[global] Instance Completion_ret : MRet Completion := λ A a, Normal a.
#[global] Instance Completion_bind : MBind Completion := λ A B f m,
  match m with
  | Normal a => f a
  | Throw e => Throw e
  end.

(** The types of values, over the type of numbers. *)
Section Values.
Variable Num : Type.

(** What [JSON.parse] builds. The members of an object are its own
    properties, each name once. *)
Inductive json_of :=
| JNull
| JBoolean (b : bool)
| JNumber (n : Num)
| JString (s : string)
| JArray (items : list json_of)
| JObject (members : list (string * json_of)).

(** The result of reading a property of a JSON value. *)
Inductive value_of :=
| Undefined
| Json (j : json_of).

(** The prototype of an object used as a map ([schemas], [allSchemas]):
    [Object.prototype], until an assignment to [__proto__] replaces it. *)
Inductive Proto_of :=
| ProtoObjectPrototype
| ProtoNull
| ProtoObject (members : list (string * json_of))
| ProtoArray (items : list json_of).

(** An object created by [{}]: its own properties and its prototype. *)
Record JsObject_of := {
  own : gmap string json_of;
  proto : Proto_of
}.

(** What [o[name]] can yield. *)
Inductive property_of :=
| Value (v : value_of)
| ObjectPrototype                        (* the object [Object.prototype] *)
| ObjectPrototypeMember (name : string)  (* the function [Object.prototype[name]] *)
| ArrayMember (items : list json_of) (name : string).
                                         (* property [name] of the array [items] *)

(** The context object: [{ schemaResolver }]. *)
Record FhirSchemaContext_of := {
  schemaResolver : string → property_of
}.

End Values.

Arguments JNull {Num}.
Arguments JBoolean {Num} b.
Arguments JNumber {Num} n.
Arguments JString {Num} s.
Arguments JArray {Num} items.
Arguments JObject {Num} members.
Arguments Undefined {Num}.
Arguments Json {Num} j.
Arguments ProtoObjectPrototype {Num}.
Arguments ProtoNull {Num}.
Arguments ProtoObject {Num} members.
Arguments ProtoArray {Num} items.
Arguments Build_JsObject_of {Num} own proto.
Arguments own {Num} j.
Arguments proto {Num} j.
Arguments Value {Num} v.
Arguments ObjectPrototype {Num}.
Arguments ObjectPrototypeMember {Num} name.
Arguments ArrayMember {Num} items name.
Arguments Build_FhirSchemaContext_of {Num} schemaResolver.
Arguments schemaResolver {Num} f.

(** Over the numbers of the platform at hand. *)
Abbreviation json := (json_of Number).
Abbreviation value := (value_of Number).
Abbreviation Proto := (Proto_of Number).
Abbreviation JsObject := (JsObject_of Number).
Abbreviation property := (property_of Number).
Abbreviation FhirSchemaContext := (FhirSchemaContext_of Number).

Section Json.
Context `{JsNumber}.



Fixpoint member (name : string) (members : list (string * json)) : option json :=
  match members with
  | [] => None
  | (k, v) :: members => if decide (k = name) then Some v else member name members
  end.

(** [v.name] for one of the names the code reads ([elements], [kind],
    [name], [url]), which no prototype of a JSON value defines: reading from
    [null] throws, an object yields its own member, any other value yields
    [undefined]. *)
Definition get (v : json) (name : string) : Completion value :=
  match v with
  | JNull => Throw TypeError
  | JObject members =>
      Normal (match member name members with Some x => Json x | None => Undefined end)
  | _ => Normal Undefined
  end.

(** ToBoolean *)
Definition ToBoolean (v : value) : bool :=
  match v with
  | Undefined | Json JNull => false
  | Json (JBoolean b) => b
  | Json (JNumber n) => Number_toBoolean n
  | Json (JString s) => negb (bool_decide (s = ""))
  | Json (JArray _) | Json (JObject _) => true
  end.

(** [typeof v === "object"] *)
Definition typeof_object (v : value) : bool :=
  match v with
  | Json JNull | Json (JArray _) | Json (JObject _) => true
  | _ => false
  end.

Definition Array_isArray (v : value) : bool :=
  match v with
  | Json (JArray _) => true
  | _ => false
  end.

(** [v === s] for a string literal [s] *)
Definition strict_equals (v : value) (s : string) : bool :=
  match v with
  | Json (JString s') => bool_decide (s' = s)
  | _ => false
  end.

(** [sep]-separated concatenation, as [Array.prototype.join] does it. *)
Fixpoint join (sep : string) (l : list string) : string :=
  match l with
  | [] => ""
  | [x] => x
  | x :: l => x +:+ sep +:+ join sep l
  end.

(** ToString of a JSON value. An array is joined with commas, [null]
    elements giving the empty string. An object goes through
    [Object.prototype.toString], unless it has a member [toString] of its
    own, which is not callable: then no primitive is found and a TypeError
    is thrown. *)
Fixpoint ToString (v : json) : Completion string :=
  match v with
  | JNull => Normal "null"
  | JBoolean b => Normal (if b then "true" else "false")
  | JNumber n => Normal (Number_toString n)
  | JString s => Normal s
  | JArray items =>
      let fix elements (l : list json) : Completion (list string) :=
        match l with
        | [] => Normal []
        | JNull :: l => r ← elements l; Normal ("" :: r)
        | x :: l => s ← ToString x; r ← elements l; Normal (s :: r)
        end in
      r ← elements items; Normal (join "," r)
  | JObject members =>
      match member "toString" members with
      | Some _ => Throw TypeError
      | None => Normal "[object Object]"
      end
  end.

(** ToPropertyKey of the value of an expression used as [o[expr]]. *)
Definition ToPropertyKey (v : value) : Completion string :=
  match v with
  | Undefined => Normal "undefined"
  | Json j => ToString j
  end.

(** ** Objects used as maps ([schemas], [allSchemas])

    Created by [{}]: own properties, and a prototype, which is
    [Object.prototype] until an assignment to [__proto__] replaces it. *)


(** [{}] *)
Definition empty_object : JsObject :=
  {| own := ∅; proto := ProtoObjectPrototype |}.

(** The properties of [Object.prototype]; all are writable data properties
    holding functions, except the accessor [__proto__]. *)
Definition Object_prototype_names : list string :=
  [ "constructor"; "__defineGetter__"; "__defineSetter__"; "hasOwnProperty";
    "__lookupGetter__"; "__lookupSetter__"; "isPrototypeOf";
    "propertyIsEnumerable"; "toString"; "valueOf"; "__proto__";
    "toLocaleString" ].


Definition proto_object (p : Proto) : property :=
  match p with
  | ProtoObjectPrototype => ObjectPrototype
  | ProtoNull => Value (Json JNull)
  | ProtoObject members => Value (Json (JObject members))
  | ProtoArray items => Value (Json (JArray items))
  end.

(** [Object.prototype[name]] read on behalf of [receiver]: the getter of
    [__proto__] answers the prototype of the receiver. *)
Definition Object_prototype_get (receiver : JsObject) (name : string) : property :=
  if decide (name = "__proto__") then proto_object (proto receiver)
  else if bool_decide (name ∈ Object_prototype_names) then ObjectPrototypeMember name
  else Value Undefined.

(** [o[name]]: the own property, or else the one inherited along the
    prototype chain. *)
Definition obj_get (o : JsObject) (name : string) : property :=
  match own o !! name with
  | Some v => Value (Json v)
  | None =>
      match proto o with
      | ProtoNull => Value Undefined
      | ProtoObjectPrototype => Object_prototype_get o name
      | ProtoObject members =>
          match member name members with
          | Some v => Value (Json v)
          | None => Object_prototype_get o name
          end
      | ProtoArray items =>
          if decide (name = "__proto__") then proto_object (proto o)
          else ArrayMember items name
      end
  end.

(** Whether an assignment to [__proto__] finds, on the prototype chain, a
    data property of that name (or the end of the chain) before it reaches
    the accessor [Object.prototype.__proto__]. *)
Definition shadows_proto_accessor (p : Proto) : bool :=
  match p with
  | ProtoNull => true
  | ProtoObjectPrototype => false
  | ProtoObject members => bool_decide (is_Some (member "__proto__" members))
  | ProtoArray _ => false
  end.

(** The setter of [__proto__]: an object or [null] becomes the prototype,
    any other value is ignored. *)
Definition set_prototype (o : JsObject) (v : json) : JsObject :=
  match v with
  | JObject members => {| own := own o; proto := ProtoObject members |}
  | JArray items => {| own := own o; proto := ProtoArray items |}
  | JNull => {| own := own o; proto := ProtoNull |}
  | _ => o
  end.

(** [o[name] = v]. Every name but [__proto__] becomes (or stays) an own
    property. [__proto__] is an own property only if it already is one or
    if the prototype chain shadows the accessor; otherwise the setter
    runs. *)
Definition obj_set (o : JsObject) (name : string) (v : json) : JsObject :=
  if decide (name = "__proto__") then
    if bool_decide (is_Some (own o !! name)) || shadows_proto_accessor (proto o)
    then {| own := <[name := v]> (own o); proto := proto o |}
    else set_prototype o v
  else {| own := <[name := v]> (own o); proto := proto o |}.

(** [Object.assign(target, source)]: each own property of [source] is
    assigned to [target]. *)
Definition Object_assign (target source : JsObject) : JsObject :=
  map_fold (λ name v o, obj_set o name v) target (own source).

End Json.

(** [JSON.parse]; [None] is a thrown SyntaxError. *)
Class JsonParser `{JsNumber} := {
  JSON_parse : string → option json
}.

(** ** JavaScript [Set] of strings

  A [Set] iterates in insertion order and holds each value once, so it
  is a duplicate-free list: [Array.from] and the spread [...s] read the
  list as it is. *)
Module JsSet.

Definition has (s : list string) (x : string) : bool := bool_decide (x ∈ s).

Definition add (s : list string) (x : string) : list string :=
  if has s x then s else s ++ [x].

(** [new Set(iterable)] *)
Definition new (iterable : list string) : list string :=
  foldl add [] iterable.

Definition size (s : list string) : Z := Z.of_nat (length s).

End JsSet.

(** ** Dependency resolution ([dependencyResolver], [resolveDeps]) *)
Section DependencyResolver.

(** What [await getPackageDeps(c)] yields for each coordinate: the
    normalised dependency list read from the registry. *)
Variable getPackageDeps : string → list string.

(** [identity] used as a filter: a string is kept when it is truthy. *)
Definition identity (x : string) : bool := bool_decide (x ≠ "").

(** [difference(setA, setB)] *)
Definition difference (setA setB : list string) : list string :=
  JsSet.new (filter (λ x, negb (JsSet.has setB x)) setA).

(** [new Set(resolvedPromises.flat().filter(identity))] *)
Definition childDeps (enqueuedDeps : list string) : list string :=
  let promisifiedDeps := getPackageDeps <$> enqueuedDeps in
  let resolvedPromises := promisifiedDeps in
  JsSet.new (filter (λ x, identity x) (mjoin resolvedPromises)).

(** The arguments of the recursive call. *)
Definition next_visited (visitedDeps enqueuedDeps : list string) :=
  JsSet.new (visitedDeps ++ enqueuedDeps).
Definition next_enqueued (visitedDeps enqueuedDeps : list string) :=
  JsSet.new (difference (childDeps enqueuedDeps) (JsSet.new visitedDeps)).

(** [fuel] bounds the depth of the recursion; [None] is "not done yet". *)
Fixpoint dependencyResolver (fuel : nat) (visitedDeps enqueuedDeps : list string)
  : option (list string) :=
  match fuel with
  | O => None
  | S fuel =>
      if JsSet.size enqueuedDeps =? 0 then Some visitedDeps
      else dependencyResolver fuel
             (next_visited visitedDeps enqueuedDeps)
             (next_enqueued visitedDeps enqueuedDeps)
  end.

Definition resolveDeps (fuel : nat) (packageCoordinates : list string)
  : option (list string) :=
  dependencyResolver fuel (JsSet.new []) (JsSet.new packageCoordinates).

(** The argument pairs [dependencyResolver] is called with, starting from
    [resolveDeps packageCoordinates]. *)
Inductive Called (packageCoordinates : list string)
  : list string → list string → Prop :=
| Called_first :
    Called packageCoordinates (JsSet.new []) (JsSet.new packageCoordinates)
| Called_next visitedDeps enqueuedDeps :
    Called packageCoordinates visitedDeps enqueuedDeps →
    JsSet.size enqueuedDeps ≠ 0 →
    Called packageCoordinates
      (next_visited visitedDeps enqueuedDeps)
      (next_enqueued visitedDeps enqueuedDeps).

(** The dependency relation: [d] is a (truthy) dependency of [c]. *)
Definition dep (c d : string) : Prop := d ∈ getPackageDeps c ∧ d ≠ "".

(** Reachable from the input coordinates, the inputs included. *)
Definition Reachable (packageCoordinates : list string) (c : string) : Prop :=
  ∃ r, r ∈ packageCoordinates ∧ rtc dep r c.

(** What holds of every pair of arguments of [dependencyResolver] reached
    from [resolveDeps packageCoordinates]. *)
Record Inv (packageCoordinates v e : list string) : Prop := {
  inv_nodup : NoDup v;
  inv_visited : ∀ x, x ∈ v → Reachable packageCoordinates x;
  inv_enqueued : ∀ x, x ∈ e → Reachable packageCoordinates x;
  inv_closed : ∀ c d, c ∈ v → dep c d → d ∈ v ∨ d ∈ e;
  inv_inputs : ∀ r, r ∈ packageCoordinates → r ∈ v ∨ r ∈ e
}.

(** Termination measure over a finite [universe] of coordinates: twice the
    number of coordinates not yet visited, plus one when the round only
    re-enqueues coordinates that are visited already. *)
Definition unvisited (universe visitedDeps : list string) : list string :=
  filter (λ x, negb (JsSet.has visitedDeps x)) universe.

Definition rounds_left (universe visitedDeps enqueuedDeps : list string) : nat :=
  (2 * length (unvisited universe visitedDeps)
   + match enqueuedDeps with
     | [] => 0
     | _ => if forallb (JsSet.has visitedDeps) enqueuedDeps then 1 else 0
     end)%nat.

End DependencyResolver.

(** ** The registry as the HTTP client sees it *)

(** A response: its status code, the chunks of decoded text its body
    delivers, and whether the body then fails (corrupt data) instead of
    ending. *)
Record Response := {
  statusCode : Z;
  chunks : list string;
  fails : bool
}.

(** [response.ok] of the fetch API *)
Definition ok (response : Response) : bool :=
  (200 <=? statusCode response) && (statusCode response <=? 299).

(** The response to a GET of each URL; [None] when the request itself
    fails. *)
Definition Network := string → option Response.

(** How a promise ends: resolved, rejected, never settled because an
    error was thrown where nothing catches it, or never settled at all. *)
Inductive Outcome (A : Type) :=
| Resolved (a : A)
| Rejected
| Uncaught
| Pending.
Arguments Resolved {A} a.
Arguments Rejected {A}.
Arguments Uncaught {A}.
Arguments Pending {A}.

(** [Promise.all]: rejected as soon as one promise is; an error thrown
    outside every promise ends the program. *)
Fixpoint Promise_all {A} (promises : list (Outcome A)) : Outcome (list A) :=
  match promises with
  | [] => Resolved []
  | p :: promises =>
      match p, Promise_all promises with
      | Uncaught, _ | _, Uncaught => Uncaught
      | Rejected, _ | _, Rejected => Rejected
      | Pending, _ | _, Pending => Pending
      | Resolved a, Resolved l => Resolved (a :: l)
      end
  end.

(** ** [encodeURIComponent] and [buildPackageFileUrl] *)

Definition packageRegistryUrl : string :=
  "https://storage.googleapis.com/fhir-schema-registry/1.0.0/".

Definition hex_digit (n : N) : ascii :=
  ascii_of_N (if (n <? 10)%N then 48 + n else 55 + n)%N.

Definition percent (byte : N) : string :=
  String "%" (String (hex_digit (byte / 16)) (String (hex_digit (byte mod 16)) "")).

Definition unreserved (c : N) : bool :=
  ((65 <=? c) && (c <=? 90) || (97 <=? c) && (c <=? 122) || (48 <=? c) && (c <=? 57)
   || bool_decide (c ∈ [45; 95; 46; 33; 126; 42; 39; 40; 41]))%N.

(** Code units below 128 are one UTF-8 octet, the others here two. *)
Fixpoint encodeURIComponent (s : string) : string :=
  match s with
  | EmptyString => EmptyString
  | String ch s =>
      let c := N_of_ascii ch in
      (if unreserved c then String ch EmptyString
       else if (c <? 128)%N then percent c
       else percent (192 + c / 64) +:+ percent (128 + c mod 64))
      +:+ encodeURIComponent s
  end.

Definition buildPackageFileUrl (packageCoordinate : string) : string :=
  packageRegistryUrl +:+ encodeURIComponent packageCoordinate
  +:+ "/package.ndjson.gz".

(** ** Reading a stream line by line *)

(** What one round of a loop body does: go on, return from the function,
    or throw. *)
Inductive Flow (S R : Type) :=
| Continue (s : S)
| Return (r : R)
| Throws (e : Error).
Arguments Continue {S R} s.
Arguments Return {S R} r.
Arguments Throws {S R} e.

Definition flow_of {S R} (c : Completion S) : Flow S R :=
  match c with
  | Normal s => Continue s
  | Throw e => Throws e
  end.

(** The loop that both functions of both files run on their buffer:
<<
    while ((newlineIndex = buffer.indexOf("\n")) !== -1) {
      const line = buffer.slice(0, newlineIndex);
      buffer = buffer.slice(newlineIndex + 1);
      body
    }
>>
    Each round removes a code unit from the buffer, so [fuel] rounds are
    enough once [fuel] is the length of the buffer. *)
Fixpoint while_newline {S R} (body : string → S → Flow S R)
    (fuel : nat) (buffer : string) (s : S) : Flow (string * S) R :=
  match fuel with
  | O => Continue (buffer, s)
  | Datatypes.S fuel =>
      let newlineIndex := JsString.indexOf buffer JsString.LF in
      if negb (newlineIndex =? -1) then
        let line := JsString.slice buffer 0 newlineIndex in
        let buffer := JsString.slice_from buffer (newlineIndex + 1) in
        match body line s with
        | Continue s => while_newline body fuel buffer s
        | Return r => Return r
        | Throws e => Throws e
        end
      else Continue (buffer, s)
  end.

(** A chunk arrives: [buffer += chunk], then the loop. *)
Definition on_chunk {S R} (body : string → S → Flow S R)
    (state : string * S) (chunk : string) : Flow (string * S) R :=
  let buffer := state.1 +:+ chunk in
  while_newline body (String.length buffer) buffer state.2.

(** The chunks of a body, in order, until one makes the function return or
    throw. *)
Fixpoint read_chunks {S R} (body : string → S → Flow S R)
    (chunks : list string) (state : string * S) : Flow (string * S) R :=
  match chunks with
  | [] => Continue state
  | chunk :: chunks =>
      match on_chunk body state chunk with
      | Continue state => read_chunks body chunks state
      | Return r => Return r
      | Throws e => Throws e
      end
  end.

(** The lines of a text that end in a line feed, and what follows the last
    line feed. *)
Fixpoint split_lines (text : string) : list string * string :=
  match text with
  | EmptyString => ([], EmptyString)
  | String c text =>
      let '(lines, rest) := split_lines text in
      if decide (c = "010"%char) then (EmptyString :: lines, rest)
      else match lines with
           | [] => ([], String c rest)
           | line :: lines => (String c line :: lines, rest)
           end
  end.

Definition terminated_lines (text : string) : list string := (split_lines text).1.
Definition unterminated_rest (text : string) : string := (split_lines text).2.

(** The loop body run over a list of lines. *)
Fixpoint over_lines {S R} (body : string → S → Flow S R)
    (lines : list string) (s : S) : Flow S R :=
  match lines with
  | [] => Continue s
  | line :: lines =>
      match body line s with
      | Continue s => over_lines body lines s
      | Return r => Return r
      | Throws e => Throws e
      end
  end.

(** Sequencing of loop rounds. *)
Definition flow_then {S S' R} (f : Flow S R) (k : S → Flow S' R) : Flow S' R :=
  match f with
  | Continue s => k s
  | Return r => Return r
  | Throws e => Throws e
  end.

(** The whole text of a body. *)
Definition text_of (chunks : list string) : string :=
  foldr String.append EmptyString chunks.

(** [JSON.parse(line)] as a completion *)
Definition parse `{JsonParser} (line : string) : Completion json :=
  match JSON_parse line with
  | Some v => Normal v
  | None => Throw SyntaxError
  end.

(** [null] *)
Definition null `{JsNumber} : value := Json JNull.


(** ** From bytes to text

    The functions of the two files are given below over a [Response], the
    chunks of text that they append to their line buffer. The two files come
    to that text in different ways: [utils.js] calls [chunk.toString()] on
    every [Buffer] that the stream of [zlib.createGunzip()] hands out
    (lines 26 and 150), and the browser file pipes the decompressed stream
    through one [TextDecoderStream] (lines 38 and 190). *)

(** What a server sends for a package, once decompressed: the status
    code, the bytes in the chunks they arrive in, and whether the stream
    then fails instead of ending. *)
Record Download := {
  status : Z;
  buffers : list (list byte);
  broken : bool
}.

Module Decoding.

(** A continuation octet of UTF-8. *)
Definition continuation (c : byte) : bool :=
  (128 <=? Byte.to_N c)%N && (Byte.to_N c <=? 191)%N.

(** The octets that begin the two-octet characters U+0080 to U+00FF. *)
Definition lead_of_two (b : byte) : bool :=
  (Byte.to_N b =? 194)%N || (Byte.to_N b =? 195)%N.

Definition two_octets (b c : byte) : ascii :=
  ascii_of_N ((Byte.to_N b - 192) * 64 + (Byte.to_N c - 128)).

(** UTF-8 decoding of a whole sequence of bytes, as far as strings here can
    hold the result: [None] stands for a text with a code unit above 255,
    which is what a character above U+00FF gives, a byte order mark (U+FEFF)
    that is not removed, and every ill-formed or cut sequence, which decodes
    to U+FFFD. *)
Fixpoint decode (bytes : list byte) : option string :=
  match bytes with
  | [] => Some EmptyString
  | b :: rest =>
      if (Byte.to_N b <? 128)%N then String (ascii_of_byte b) <$> decode rest
      else if lead_of_two b then
        match rest with
        | c :: rest =>
            if continuation c then String (two_octets b c) <$> decode rest
            else None
        | [] => None
        end
      else None
  end.

(** [chunk.toString()] of a [Buffer]: the chunk is decoded on its own. *)
Definition Buffer_toString (chunk : list byte) : option string := decode chunk.

(** The same decoding, except that a character cut by the end of the bytes
    is kept back for the bytes to come: the text decoded, and the bytes kept
    back. *)
Fixpoint decode_complete (bytes : list byte) : option (string * list byte) :=
  match bytes with
  | [] => Some (EmptyString, [])
  | b :: rest =>
      if (Byte.to_N b <? 128)%N then
        '(text, pending) ← decode_complete rest;
        Some (String (ascii_of_byte b) text, pending)
      else if lead_of_two b then
        match rest with
        | c :: rest =>
            if continuation c then
              '(text, pending) ← decode_complete rest;
              Some (String (two_octets b c) text, pending)
            else None
        | [] => Some (EmptyString, [b])
        end
      else None
  end.

(** The byte order mark, which a [TextDecoderStream] removes from the start
    of its text. *)
Definition BOM : list N := [239; 187; 191]%N.

(** The decoder of a [TextDecoderStream] is kept from chunk to chunk: the
    chunks of text that it delivers for the chunks of bytes, given whether it
    is still at the start of the text ([bom]) and the bytes kept back. When
    the bytes end inside a character, U+FFFD is delivered at the end. A chunk
    of text may be empty here; appending it to a buffer changes nothing. *)
Fixpoint TextDecoderStream_from (bom : bool) (pending : list byte)
    (chunks : list (list byte)) : option (list string) :=
  match chunks with
  | [] => match pending with [] => Some [] | _ => None end
  | chunk :: chunks =>
      let bytes := pending ++ chunk in
      if bom && bool_decide (Byte.to_N <$> bytes ∈ [[]; take 1 BOM; take 2 BOM]) then
        texts ← TextDecoderStream_from true bytes chunks; Some (EmptyString :: texts)
      else
        let bytes := if bom && bool_decide (Byte.to_N <$> take 3 bytes = BOM)
                     then drop 3 bytes else bytes in
        '(text, pending) ← decode_complete bytes;
        texts ← TextDecoderStream_from false pending chunks;
        Some (text :: texts)
  end.

(** [pipeThrough(new TextDecoderStream())] *)
Definition TextDecoderStream (chunks : list (list byte)) : option (list string) :=
  TextDecoderStream_from true [] chunks.

(** The response as the ["data"] listeners of [utils.js] see it: each
    chunk decoded by [chunk.toString()]. *)
Definition Node_response (download : Download) : option Response :=
  texts ← mapM Buffer_toString (buffers download);
  Some {| statusCode := status download; chunks := texts; fails := broken download |}.

(** The response as the reader of the browser file sees it. *)
Definition Browser_response (download : Download) : option Response :=
  texts ← TextDecoderStream (buffers download);
  Some {| statusCode := status download; chunks := texts; fails := broken download |}.

End Decoding.

(** The bytes kept back are none, or the first octet of a two-octet
    character. *)
Definition kept_back (pending : list byte) : Prop :=
  pending = [] ∨ ∃ b, pending = [b] ∧ Decoding.lead_of_two b = true.


(** ** [utils.js], the Node implementation ([https], [zlib]) *)
Module Node.
Section Node.
Context `{JsonParser}.

(** [https.get(url, callback).on("error", ...)] *)
Variable https_get : Network.

(** What [await getPackageDeps(c)] yields. *)
Variable getPackageDeps : string → list string.

(** The body of the loop of [getSpecificLineFromNdjson]; the state is
    [currentLine]. *)
Definition getSpecificLineFromNdjson_line (targetLine : Z)
    (line : string) (currentLine : Z) : Flow Z (Outcome value) :=
  let currentLine := currentLine + 1 in
  if currentLine =? targetLine then
    match parse line with
    | Normal parsedLine => Return (Resolved (Json parsedLine))
    | Throw _ => Return Rejected
    end
  else Continue currentLine.

(** The callback of [https.get] *)
Definition getSpecificLineFromNdjson_response (targetLine : Z)
    (response : Response) : Outcome value :=
  if negb (statusCode response =? 200) then Resolved null
  else
    let currentLine := 0 in
    let lineBuffer := "" in
    match read_chunks (getSpecificLineFromNdjson_line targetLine)
            (chunks response) (lineBuffer, currentLine) with
    | Return outcome => outcome
    | Throws _ => Uncaught
    | Continue (_, currentLine) =>
        if fails response then Rejected                   (* "error" *)
        else if currentLine <? targetLine then Rejected   (* "end" *)
        else Pending
    end.

Definition getSpecificLineFromNdjson (url : string) (targetLine : Z)
  : Outcome value :=
  match https_get url with
  | None => Resolved null
  | Some response => getSpecificLineFromNdjson_response targetLine response
  end.

Definition getPackageMeta (packageCoordinate : string) : Outcome value :=
  getSpecificLineFromNdjson (buildPackageFileUrl packageCoordinate) 1.

(** The block under [if (pastDelimiter)]: the line is parsed and, when it is
    a FHIR Schema, stored under its name and under its URL. *)
Definition consider (schemas : JsObject) (line : string) : Completion JsObject :=
  schema ← parse line;
  elements ← get schema "elements";
  let hasElements :=
    ToBoolean elements && typeof_object elements && negb (Array_isArray elements) in
  kind ← get schema "kind";
  let isPrimitive := strict_equals kind "primitive-type" in
  if hasElements || isPrimitive then
    name ← get schema "name";
    schemas ← (if ToBoolean name
               then key ← ToPropertyKey name; mret (obj_set schemas key schema)
               else mret schemas);
    url ← get schema "url";
    schemas ← (if ToBoolean url
               then key ← ToPropertyKey url; mret (obj_set schemas key schema)
               else mret schemas);
    mret schemas
  else mret schemas.

(** The body of the loop over the lines of a package; the state is
    [pastDelimiter] and [schemas]. *)
Definition loadPackageSchemas_line (line : string) (state : bool * JsObject)
  : Completion (bool * JsObject) :=
  let '(pastDelimiter, schemas) := state in
  if bool_decide (JsString.trim line = "") then mret (pastDelimiter, schemas)
  else if JsString.includes line "fhir-schema/delimiter" then mret (true, schemas)
  else if pastDelimiter then
    schemas ← consider schemas line; mret (pastDelimiter, schemas)
  else mret (pastDelimiter, schemas).

(** The callback of [https.get] *)
Definition loadPackageSchemas_response (schemas : JsObject)
    (response : Response) : Outcome JsObject :=
  if negb (statusCode response =? 200) then Rejected
  else
    let buffer := "" in
    let pastDelimiter := false in
    match read_chunks (R := Empty_set)
            (λ line state, flow_of (loadPackageSchemas_line line state))
            (chunks response) (buffer, (pastDelimiter, schemas)) with
    | Return r => match r with end
    | Throws _ => Uncaught        (* thrown inside the "data" listener *)
    | Continue (_, (_, schemas)) =>
        if fails response then Rejected              (* "error" *)
        else Resolved schemas                        (* "end" *)
    end.

Definition loadPackageSchemas (packageCoordinate : string) : Outcome JsObject :=
  let url := buildPackageFileUrl packageCoordinate in
  let schemas := empty_object in
  match https_get url with
  | None => Rejected
  | Some response => loadPackageSchemas_response schemas response
  end.

Definition createContext (fuel : nat) (packageCoordinates : list string)
  : option (Outcome FhirSchemaContext) :=
  allPackages ← resolveDeps getPackageDeps fuel packageCoordinates;
  Some match Promise_all (loadPackageSchemas <$> allPackages) with
       | Resolved schemaArrays =>
           let allSchemas := foldl Object_assign empty_object schemaArrays in
           Resolved {| schemaResolver := λ schemaName, obj_get allSchemas schemaName |}
       | Rejected => Rejected
       | Uncaught => Uncaught
       | Pending => Pending
       end.

End Node.
End Node.

(** ** The browser implementation ([fetch], [DecompressionStream]) *)
Module Browser.
Section Browser.
Context `{JsonParser}.

(** [await fetch(url)]; [None] when it rejects. *)
Variable fetch : Network.

(** What [await getPackageDeps(c)] yields. *)
Variable getPackageDeps : string → list string.

(** The body of the loop of [getSpecificLineFromNdjson]; the state is
    [currentLine]. *)
Definition getSpecificLineFromNdjson_line (targetLine : Z)
    (line : string) (currentLine : Z) : Flow Z value :=
  let currentLine := currentLine + 1 in
  if currentLine =? targetLine then
    match parse line with
    | Normal parsedLine => Return (Json parsedLine)
    | Throw e => Throws e
    end
  else Continue currentLine.

(** What follows [const response = await fetch(url)] *)
Definition getSpecificLineFromNdjson_response (targetLine : Z)
    (response : Response) : Outcome value :=
  if negb (ok response) then Resolved null
  else
    let currentLine := 0 in
    let lineBuffer := "" in
    match read_chunks (getSpecificLineFromNdjson_line targetLine)
            (chunks response) (lineBuffer, currentLine) with
    | Return parsedLine => Resolved parsedLine
    | Throws _ => Resolved null
    | Continue _ => Resolved null
    end.

(** The whole function is inside [try { ... } catch { return null; }]. *)
Definition getSpecificLineFromNdjson (url : string) (targetLine : Z)
  : Outcome value :=
  match fetch url with
  | None => Resolved null
  | Some response => getSpecificLineFromNdjson_response targetLine response
  end.

Definition getPackageMeta (packageCoordinate : string) : Outcome value :=
  getSpecificLineFromNdjson (buildPackageFileUrl packageCoordinate) 1.

(** The block under [if (pastDelimiter)]: the line is parsed and, when it is
    a FHIR Schema, stored under its name and under its URL. *)
Definition consider (schemas : JsObject) (line : string) : Completion JsObject :=
  schema ← parse line;
  elements ← get schema "elements";
  let hasElements :=
    ToBoolean elements && typeof_object elements && negb (Array_isArray elements) in
  kind ← get schema "kind";
  let isPrimitive := strict_equals kind "primitive-type" in
  if hasElements || isPrimitive then
    name ← get schema "name";
    schemas ← (if ToBoolean name
               then key ← ToPropertyKey name; mret (obj_set schemas key schema)
               else mret schemas);
    url ← get schema "url";
    schemas ← (if ToBoolean url
               then key ← ToPropertyKey url; mret (obj_set schemas key schema)
               else mret schemas);
    mret schemas
  else mret schemas.

(** The body of the loop over the lines of a package; the state is
    [pastDelimiter] and [schemas]. *)
Definition loadPackageSchemas_line (line : string) (state : bool * JsObject)
  : Completion (bool * JsObject) :=
  let '(pastDelimiter, schemas) := state in
  if bool_decide (JsString.trim line = "") then mret (pastDelimiter, schemas)
  else if JsString.includes line "fhir-schema/delimiter" then mret (true, schemas)
  else if pastDelimiter then
    schemas ← consider schemas line; mret (pastDelimiter, schemas)
  else mret (pastDelimiter, schemas).

(** What follows [const response = await fetch(url)] *)
Definition loadPackageSchemas_response (schemas : JsObject)
    (response : Response) : Outcome JsObject :=
  if negb (ok response) then Resolved schemas      (* console.warn *)
  else
    let buffer := "" in
    let pastDelimiter := false in
    match read_chunks (R := Empty_set)
            (λ line state, flow_of (loadPackageSchemas_line line state))
            (chunks response) (buffer, (pastDelimiter, schemas)) with
    | Return r => match r with end
    | Throws _ => Rejected
    | Continue (_, (_, schemas)) =>
        if fails response then Rejected
        else Resolved schemas
    end.

Definition loadPackageSchemas (packageCoordinate : string) : Outcome JsObject :=
  let url := buildPackageFileUrl packageCoordinate in
  let schemas := empty_object in
  match fetch url with
  | None => Rejected
  | Some response => loadPackageSchemas_response schemas response
  end.

Definition createContext (fuel : nat) (packageCoordinates : list string)
  : option (Outcome FhirSchemaContext) :=
  allPackages ← resolveDeps getPackageDeps fuel packageCoordinates;
  Some match Promise_all (loadPackageSchemas <$> allPackages) with
       | Resolved schemaArrays =>
           let allSchemas := foldl Object_assign empty_object schemaArrays in
           Resolved {| schemaResolver := λ schemaName, obj_get allSchemas schemaName |}
       | Rejected => Rejected
       | Uncaught => Uncaught
       | Pending => Pending
       end.

End Browser.
End Browser.

(** What [ctx.schemaResolver(schemaName)] yields once [createContext] has
    resolved with [ctx]. *)
Definition resolve_with `{JsNumber}
    (created : option (Outcome FhirSchemaContext)) (schemaName : string)
  : option property :=
  match created with
  | Some (Resolved ctx) => Some (schemaResolver ctx schemaName)
  | _ => None
  end.

(** What a loaded map holds under [key], once [loadPackageSchemas] has
    resolved. *)
Definition loaded_under `{JsNumber} (loaded : Outcome JsObject) (key : string)
  : option json :=
  match loaded with
  | Resolved schemas => own schemas !! key
  | _ => None
  end.

(** ** The declaration file [index.d.ts] and the imports of the tests *)
Module Declarations.

(** [export function name(parameters): returns;] *)
Record FunctionDeclaration := {
  function_name : string;
  parameters : list (string * string);
  returns : string
}.

(** The functions that [index.d.ts] exports, in its order. *)
Definition exported_functions : list FunctionDeclaration :=
  [ {| function_name := "enumerateElements";
       parameters := [("ctx", "FhirSchemaContext"); ("schemaNames", "string[]")];
       returns := "Record<string, EnumeratedElement>" |};
    {| function_name := "validate";
       parameters := [("ctx", "FhirSchemaContext"); ("schemaNames", "string[]");
                      ("data", "unknown")];
       returns := "ValidationResult" |} ].

(** The interfaces that [index.d.ts] exports. *)
Definition exported_interfaces : list string :=
  [ "FhirSchemaContext"; "FhirSchema"; "FhirElementDefinition"; "FhirBinding";
    "FhirConstraint"; "FhirExtensionDefinition"; "EnumeratedElement";
    "ValidationError"; "ValidationResult" ].

(** The declaration of a function, if the file has one. *)
Definition declaration (name : string) : option FunctionDeclaration :=
  List.find (λ d, bool_decide (function_name d = name)) exported_functions.

(** What [tests.test.js] imports from [../src/index.js]. *)
Definition imported_by_tests : list string :=
  [ "validate"; "enumerateElements"; "validateElementValue" ].

(** Where the doc comment of [ValidationError], in [index.d.ts], says the
    errors come from: "returned by validate and validateElementValue". *)
Definition documented_sources_of_errors : list string :=
  [ "validate"; "validateElementValue" ].

End Declarations.

(** ** A platform for the worked cases

    Numbers are the integers that a double holds exactly, written without
    fraction or exponent; [JSON.parse] is the parser of JSON texts whose
    numbers are such integers and whose strings use no [\u] escape. On any
    other text it answers [None], so the examples stay inside this
    fragment. *)
Module Fixture.

Definition digit (n : Z) : ascii := ascii_of_N (Z.to_N (48 + n)).

Fixpoint decimal (fuel : nat) (n : Z) (acc : string) : string :=
  match fuel with
  | O => acc
  | S fuel =>
      let acc := String (digit (n mod 10)) acc in
      if n / 10 =? 0 then acc else decimal fuel (n / 10) acc
  end.

Definition Z_toString (n : Z) : string :=
  if n <? 0 then String "-" (decimal (Z.to_nat (- n)) (- n) "")
  else decimal (S (Z.to_nat n)) n "".

#[global] Instance number : JsNumber := {|
  Number := Z;
  Number_toBoolean n := negb (n =? 0);
  Number_toString := Z_toString
|}.

Definition quote : ascii := "034".

Definition is_digit (c : ascii) : bool :=
  (48 <=? N_of_ascii c)%N && (N_of_ascii c <=? 57)%N.

Fixpoint skip_ws (s : string) : string :=
  match s with
  | String c s' =>
      if bool_decide (c ∈ [" "; "009"; "010"; "013"]%char) then skip_ws s' else s
  | EmptyString => EmptyString
  end.

(** The rest of [s] after the prefix [word], if it starts with it. *)
Fixpoint after (word s : string) : option string :=
  match word, s with
  | EmptyString, _ => Some s
  | String a word, String b s => if decide (a = b) then after word s else None
  | _, _ => None
  end.

(** Digits of a number, at most 15 of them. *)
Fixpoint digits (fuel : nat) (s : string) (acc : Z) : option (Z * string) :=
  match s with
  | String c s' =>
      if is_digit c then
        match fuel with
        | O => None
        | S fuel => digits fuel s' (10 * acc + (Z.of_N (N_of_ascii c) - 48))
        end
      else Some (acc, s)
  | EmptyString => Some (acc, s)
  end.

Definition integer (s : string) : option (Z * string) :=
  match s with
  | String "0" s' =>
      match s' with
      | String c _ => if is_digit c then None else Some (0, s')
      | EmptyString => Some (0, s')
      end
  | String c _ => if is_digit c then digits 15 s 0 else None
  | EmptyString => None
  end.

Definition number_literal (s : string) : option (Z * string) :=
  '(n, rest) ← match s with
               | String "-" s' => '(n, rest) ← integer s'; Some (- n, rest)
               | _ => integer s
               end;
  match rest with
  | String c _ => if bool_decide (c ∈ ["."; "e"; "E"]%char) then None else Some (n, rest)
  | EmptyString => Some (n, rest)
  end.

(** The characters of a string literal after its opening quote. *)
Fixpoint string_literal (s : string) : option (string * string) :=
  match s with
  | EmptyString => None
  | String c s' =>
      if decide (c = quote) then Some (EmptyString, s')
      else if decide (c = "\"%char) then
        match s' with
        | String e s'' =>
            c' ← (if decide (e = quote) then Some quote
                  else if decide (e = "\"%char) then Some "\"%char
                  else if decide (e = "/"%char) then Some "/"%char
                  else if decide (e = "b"%char) then Some "008"%char
                  else if decide (e = "f"%char) then Some "012"%char
                  else if decide (e = "n"%char) then Some "010"%char
                  else if decide (e = "r"%char) then Some "013"%char
                  else if decide (e = "t"%char) then Some "009"%char
                  else None);
            '(str, rest) ← string_literal s''; Some (String c' str, rest)
        | EmptyString => None
        end
      else if (N_of_ascii c <? 32)%N then None
      else '(str, rest) ← string_literal s'; Some (String c str, rest)
  end.

(** A member parsed again replaces the value of the earlier one. *)
Fixpoint set_member (name : string) (v : json) (members : list (string * json))
  : list (string * json) :=
  match members with
  | [] => [(name, v)]
  | (k, x) :: members =>
      if decide (k = name) then (k, v) :: members
      else (k, x) :: set_member name v members
  end.

Fixpoint parse_value (fuel : nat) (s : string) : option (json * string) :=
  match fuel with
  | O => None
  | S fuel =>
      match skip_ws s with
      | EmptyString => None
      | String c rest as s =>
          if decide (c = "n"%char) then r ← after "null" s; Some (JNull, r)
          else if decide (c = "t"%char) then r ← after "true" s; Some (JBoolean true, r)
          else if decide (c = "f"%char) then r ← after "false" s; Some (JBoolean false, r)
          else if decide (c = quote) then
            '(str, r) ← string_literal rest; Some (JString str, r)
          else if decide (c = "["%char) then
            match skip_ws rest with
            | String "]" r => Some (JArray [], r)
            | _ => parse_elements fuel rest []
            end
          else if decide (c = "{"%char) then
            match skip_ws rest with
            | String "}" r => Some (JObject [], r)
            | _ => parse_members fuel rest []
            end
          else '(n, r) ← number_literal s; Some (JNumber (n : Number), r)
      end
  end
with parse_elements (fuel : nat) (s : string) (acc : list json)
  : option (json * string) :=
  match fuel with
  | O => None
  | S fuel =>
      '(v, rest) ← parse_value fuel s;
      match skip_ws rest with
      | String "," rest => parse_elements fuel rest (acc ++ [v])
      | String "]" rest => Some (JArray (acc ++ [v]), rest)
      | _ => None
      end
  end
with parse_members (fuel : nat) (s : string) (acc : list (string * json))
  : option (json * string) :=
  match fuel with
  | O => None
  | S fuel =>
      match skip_ws s with
      | String c rest =>
          if decide (c = quote) then
            '(name, rest) ← string_literal rest;
            match skip_ws rest with
            | String ":" rest =>
                '(v, rest) ← parse_value fuel rest;
                match skip_ws rest with
                | String "," rest => parse_members fuel rest (set_member name v acc)
                | String "}" rest => Some (JObject (set_member name v acc), rest)
                | _ => None
                end
            | _ => None
            end
          else None
      | EmptyString => None
      end
  end.

Definition parse_text (text : string) : option json :=
  '(v, rest) ← parse_value (S (String.length text)) text;
  match skip_ws rest with
  | EmptyString => Some v
  | _ => None
  end.

#[global] Instance parser : JsonParser := {| JSON_parse := parse_text |}.

(** JSON texts are written with ['] for the quotation mark. *)
Fixpoint q (s : string) : string :=
  match s with
  | EmptyString => EmptyString
  | String c s => String (if decide (c = "'"%char) then quote else c) (q s)
  end.

(** The text of a file from its lines, each ended by a line feed. *)
Definition file (lines : list string) : string :=
  foldr (λ line text, q line +:+ JsString.LF +:+ text) EmptyString lines.

(** A response with status 200 that delivers [text] in one chunk. *)
Definition serve (text : string) : Response :=
  {| statusCode := 200; chunks := [text]; fails := false |}.

(** A registry that holds one package. *)
Definition registry (packageCoordinate : string) (response : Response) : Network :=
  λ url, if decide (url = buildPackageFileUrl packageCoordinate)
         then Some response else None.

Definition core : string := "hl7.fhir.r4.core#4.0.1".

(** A package text up to its delimiter line, and a schema line. *)
Definition preamble : string :=
  file ["{'name':'hl7.fhir.r4.core','version':'4.0.1'}"; "['fhir-schema/delimiter']"].

Definition string_schema : string :=
  q "{'name':'string','url':'http://hl7.org/fhir/StructureDefinition/string','kind':'primitive-type'}".

(** Dependencies that form a cycle: the core package and an extension
    package depend on each other, and the extension package on itself. *)
Definition extension : string := "hl7.fhir.uv.extensions.r4#1.0.0".

Definition cyclic_deps (packageCoordinate : string) : list string :=
  if decide (packageCoordinate = core) then [extension]
  else if decide (packageCoordinate = extension) then [core; extension]
  else [].

(** A registry that holds several packages. *)
Definition registry_of (packages : list (string * Response)) : Network :=
  λ url, snd <$> List.find (λ package, bool_decide (url = buildPackageFileUrl package.1))
                   packages.

(** No package depends on another. *)
Definition no_deps (packageCoordinate : string) : list string := [].

(** The core package with its one schema. *)
Definition core_package : Response :=
  serve (preamble +:+ string_schema +:+ JsString.LF).




(** Two profiles of one name, published under different URLs. *)
Definition vitalsigns_hl7 : string :=
  q "{'name':'vitalsigns','url':'http://hl7.org/fhir/StructureDefinition/vitalsigns','elements':{}}".

Definition vitalsigns_local : string :=
  q "{'name':'vitalsigns','url':'http://example.org/fhir/StructureDefinition/vitalsigns','elements':{}}".

Definition vitalsigns_package : string :=
  preamble +:+ vitalsigns_hl7 +:+ JsString.LF +:+ vitalsigns_local +:+ JsString.LF.

(** The answer for a package that the registry does not have. *)
Definition not_found : Response :=
  {| statusCode := 404; chunks := []; fails := false |}.

(** An implementation guide that depends on the core package and brings a
    schema named [string] of its own; its package arrives line by line. *)
Definition guide : string := "example.guide#1.0.0".

Definition guide_metadata : string :=
  q "{'name':'example.guide','dependencies':[':hl7.fhir.r4.core#4.0.1']}".

Definition guide_string_schema : string :=
  q "{'name':'string','kind':'primitive-type','title':'a guide string'}".

Definition guide_package : Response :=
  {| statusCode := 200;
     chunks := [guide_metadata +:+ JsString.LF;
                q "['fhir-schema/delimiter']" +:+ JsString.LF;
                guide_string_schema +:+ JsString.LF];
     fails := false |}.

Definition guide_deps (packageCoordinate : string) : list string :=
  if decide (packageCoordinate = guide) then [core] else [].

Definition guide_registry : Network :=
  registry_of [(guide, guide_package); (core, core_package)].

(** What [createContext(["example.guide#1.0.0"])] resolves with. *)
Definition guide_context : FhirSchemaContext :=
  match Node.createContext guide_registry guide_deps 8 [guide] with
  | Some (Resolved ctx) => ctx
  | _ => {| schemaResolver := λ _, Value Undefined |}
  end.

(** The map loaded from the core package. *)
Definition core_schemas : JsObject :=
  match Node.loadPackageSchemas guide_registry core with
  | Resolved schemas => schemas
  | _ => empty_object
  end.

(** The value of a JSON text. *)
Definition parsed (text : string) : json :=
  default JNull (JSON_parse text).

(** A package with a line after the delimiter that is cut short. *)
Definition cut_line : string := q "{'name':".

Definition broken_package : Response :=
  serve (preamble +:+ cut_line +:+ JsString.LF).

(** A package of StructureDefinitions only, without delimiter line. *)
Definition undelimited_package : Response :=
  serve (file ["{'name':'hl7.fhir.r4.core','version':'4.0.1'}";
               "{'resourceType':'StructureDefinition','name':'string'}"]).

(** The UTF-8 octets of a text. *)
Definition utf8_unit (c : ascii) : list byte :=
  let n := N_of_ascii c in
  if (n <? 128)%N then [byte_of_ascii c]
  else [byte_of_ascii (ascii_of_N (192 + n / 64));
        byte_of_ascii (ascii_of_N (128 + n mod 64))].

Fixpoint utf8 (text : string) : list byte :=
  match text with
  | EmptyString => []
  | String c text => utf8_unit c ++ utf8 text
  end.

(** A package with a schema named [café]; the name ends with the code unit
    233, two octets in UTF-8. *)
Definition cafe_start : string := preamble +:+ q "{'name':'caf".

Definition cafe_package : string :=
  cafe_start +:+ String "233" (q "','kind':'primitive-type'}") +:+ JsString.LF.

(** The package in one chunk, and cut between the two octets of [é]. *)
Definition cafe_whole : Download :=
  {| status := 200; buffers := [utf8 cafe_package]; broken := false |}.

Definition cafe_cut : Download :=
  {| status := 200;
     buffers := [take (S (length (utf8 cafe_start))) (utf8 cafe_package);
                 drop (S (length (utf8 cafe_start))) (utf8 cafe_package)];
     broken := false |}.

(** The same package after a byte order mark. *)
Definition cafe_marked : Download :=
  {| status := 200; buffers := [[xef; xbb; xbf] ++ utf8 cafe_package];
     broken := false |}.

(** A download as each file decodes it; a text that strings do not hold
    gives an empty response here. *)
Definition Node_decoded (download : Download) : Response :=
  default (serve "") (Decoding.Node_response download).

Definition Browser_decoded (download : Download) : Response :=
  default (serve "") (Decoding.Browser_response download).

(** The guide as octets, in the chunks of [guide_package]. *)
Definition guide_download : Download :=
  {| status := 200; buffers := utf8 <$> chunks guide_package; broken := false |}.

(** The guide and the package with the schema [café], as Node and as the
    browser receive them. *)
Definition Node_registry : Network :=
  registry_of [(guide, Node_decoded guide_download); (core, Node_decoded cafe_whole)].

Definition Browser_registry : Network :=
  registry_of [(guide, Browser_decoded guide_download);
               (core, Browser_decoded cafe_cut)].

End Fixture.

(** ** The entries of a package text *)

(** [!line.trim()] *)
Definition is_blank (line : string) : bool :=
  bool_decide (JsString.trim line = "").

(** [line.includes("fhir-schema/delimiter")] *)
Definition is_delimiter (line : string) : bool :=
  JsString.includes line "fhir-schema/delimiter".

(** The lines after the first line that contains the delimiter. *)
Fixpoint after_delimiter (lines : list string) : list string :=
  match lines with
  | [] => []
  | line :: lines => if is_delimiter line then lines else after_delimiter lines
  end.

(** The lines of a text that can bring a schema: ended by a line feed,
    after the delimiter line, not blank, and without the delimiter. *)
Definition entry_lines (text : string) : list string :=
  filter (λ line, negb (is_blank line) && negb (is_delimiter line))
         (after_delimiter (terminated_lines text)).

(** The lines given one after the other to a [consider]. *)
Fixpoint consider_all `{JsNumber}
    (consider : JsObject → string → Completion JsObject)
    (schemas : JsObject) (lines : list string) : Completion JsObject :=
  match lines with
  | [] => mret schemas
  | line :: lines =>
      schemas ← consider schemas line; consider_all consider schemas lines
  end.

(** Every code unit is white space. *)
Fixpoint all_white (s : string) : bool :=
  match s with
  | EmptyString => true
  | String c s => JsString.isWhiteSpace c && all_white s
  end.

(** The non-blank lines after the delimiter line. *)
Definition nonblank_lines_after_delimiter (text : string) : list string :=
  filter (λ line, negb (is_blank line)) (after_delimiter (terminated_lines text)).

(** A value that, when truthy, converts to a property key. *)
Definition key_convertible `{JsNumber} (v : value) : Prop :=
  ToBoolean v = true → ∃ key, ToPropertyKey v = Normal key.

(** A line that parses as JSON to a value other than [null] whose [name]
    and [url] can serve as keys. *)
Definition well_formed_entry `{JsonParser} (line : string) : Prop :=
  ∃ schema, JSON_parse line = Some schema ∧ schema ≠ JNull
    ∧ ∀ name v, name ∈ ["name"; "url"] → get schema name = Normal v →
        key_convertible v.

(** The number of the line that follows the last line feed of a text. *)
Definition final_line_number (text : string) : Z :=
  Z.of_nat (length (terminated_lines text)) + 1.

(** ** What a loaded map retains *)
Section Retained.
Context `{JsNumber}.

(** The schema has an [elements] member that is a non-array object. *)
Definition has_elements_object (schema : json) : Prop :=
  ∃ members elements,
    schema = JObject members ∧ member "elements" members = Some (JObject elements).

(** The schema has [kind] equal to "primitive-type". *)
Definition is_primitive_type (schema : json) : Prop :=
  ∃ members,
    schema = JObject members
    ∧ member "kind" members = Some (JString "primitive-type").

Definition is_fhir_schema (schema : json) : Prop :=
  has_elements_object schema ∨ is_primitive_type schema.

(** The same, as a test. *)
Definition retained (schema : json) : bool :=
  match schema with
  | JObject members =>
      match member "elements" members with
      | Some (JObject _) => true
      | _ => false
      end
      || match member "kind" members with
         | Some (JString kind) => bool_decide (kind = "primitive-type")
         | _ => false
         end
  | _ => false
  end.

(** The key that [schemas[schema.name] = schema] writes, for [name] and for
    [url]: none when the property is falsy (or cannot be a key). *)
Definition key_of (schema : json) (name : string) : option string :=
  match get schema name with
  | Normal v =>
      if ToBoolean v
      then match ToPropertyKey v with
           | Normal key => Some key
           | Throw _ => None
           end
      else None
  | Throw _ => None
  end.

Definition stored_under (schema : json) (key : string) : Prop :=
  key_of schema "name" = Some key ∨ key_of schema "url" = Some key.

(** The schemas a list of parsed lines stores under [key], in order. *)
Definition stored_at (key : string) (parsed : list json) : list json :=
  filter (λ schema, Is_true (retained schema) ∧ stored_under schema key) parsed.

End Retained.

(** ** [obtainPackageDeps] ([utils.js] only) *)
Section ObtainPackageDeps.

(** What [await getPackageDeps(c)] yields. *)
Variable getPackageDeps : string → list string.

Definition obtainPackageDeps (fuel : nat) (packageCoordinate : string)
  : option (list string) :=
  let rootDeps := getPackageDeps packageCoordinate in
  dependencyResolver getPackageDeps fuel (JsSet.new []) (JsSet.new rootDeps).

End ObtainPackageDeps.

(** ** [getPackageDeps] and [normalizePackageDeps]

    The two files have the same text for both functions; they differ in the
    [getPackageMeta] that [getPackageDeps] awaits. *)
Module PackageDeps.
Section PackageDeps.
Context `{JsNumber}.

(** [d.slice(1)]: strings and arrays have a [slice]; on any other value
    the call throws, since no JSON value holds a function. *)
Definition slice_1 (d : json) : Completion json :=
  match d with
  | JString s => Normal (JString (JsString.slice_from s 1))
  | JArray items => Normal (JArray (drop 1 items))
  | _ => Throw TypeError
  end.

(** [packageDeps ? packageDeps.map((d) => d.slice(1)) : []]; only an array
    has a [map] to call. *)
Definition normalizePackageDeps (packageDeps : value) : Completion (list json) :=
  if ToBoolean packageDeps then
    match packageDeps with
    | Json (JArray items) => mapM slice_1 items
    | _ => Throw TypeError
    end
  else Normal [].

(** [packageMeta.dependencies], a name that no prototype of a JSON value
    defines. *)
Definition dependencies (packageMeta : value) : Completion value :=
  match packageMeta with
  | Undefined => Throw TypeError
  | Json packageMeta => get packageMeta "dependencies"
  end.

(** What [await getPackageMeta(c)] settles with. *)
Variable getPackageMeta : string → Outcome value.

(** An error thrown in the body of the [async] function rejects its
    promise. *)
Definition getPackageDeps (packageCoordinate : string) : Outcome (list json) :=
  match getPackageMeta packageCoordinate with
  | Resolved packageMeta =>
      if negb (ToBoolean packageMeta) then Resolved []
      else match packageDeps ← dependencies packageMeta;
                 normalizePackageDeps packageDeps with
           | Normal packageDeps => Resolved packageDeps
           | Throw _ => Rejected
           end
  | Rejected => Rejected
  | Uncaught => Uncaught
  | Pending => Pending
  end.

End PackageDeps.
End PackageDeps.

(** ** Lines by number *)

(** The line number [n] of a text, counting from 1 the lines that end in a
    line feed. *)
Definition nth_line (text : string) (n : Z) : option string :=
  if 1 <=? n then terminated_lines text !! Z.to_nat (n - 1) else None.

(** ** Reading an encoded coordinate back *)

(** Every code unit of a string passes a test. *)
Fixpoint every (test : ascii → bool) (s : string) : bool :=
  match s with
  | EmptyString => true
  | String c s => test c && every test s
  end.

(** The code units that [encodeURIComponent] writes: the unreserved ones
    and the percent sign. *)
Definition written_by_encodeURIComponent (c : ascii) : bool :=
  unreserved (N_of_ascii c) || bool_decide (c = "%"%char).

(** The value of a hexadecimal digit. *)
Definition hex_value (c : ascii) : option N :=
  let n := N_of_ascii c in
  if (48 <=? n)%N && (n <=? 57)%N then Some (n - 48)%N
  else if (65 <=? n)%N && (n <=? 70)%N then Some (n - 55)%N
  else None.

(** The octet of an escape [%XY] at the head of a string, and what
    follows it. *)
Definition escaped_octet (s : string) : option (N * string) :=
  match s with
  | String "%" (String x (String y rest)) =>
      h ← hex_value x; l ← hex_value y; Some (16 * h + l, rest)%N
  | _ => None
  end.

(** The code unit that the head of an encoded string stands for, and what
    follows it: one step of [encodeURIComponent] undone. *)
Definition decoded_head (s : string) : option (ascii * string) :=
  match s with
  | EmptyString => None
  | String c rest =>
      if decide (c = "%"%char) then
        '(octet, rest) ← escaped_octet s;
        if (octet <? 128)%N then Some (ascii_of_N octet, rest)
        else '(octet', rest) ← escaped_octet rest;
             Some (ascii_of_N ((octet - 192) * 64 + (octet' - 128)), rest)
      else Some (c, rest)
  end.

(* ===================================================================== *)
(** * Properties *)
(* ===================================================================== *)

(** ** Sets *)
Module JsSetFacts.
Import JsSet.

Lemma has_true s x : has s x = true ↔ x ∈ s.
Proof. unfold has. by rewrite bool_decide_eq_true. Qed.

Lemma elem_of_add s x y : y ∈ add s x ↔ y ∈ s ∨ y = x.
Proof.
  unfold add. destruct (has s x) eqn:E.
  - apply has_true in E. split; [by left|]. by intros [?| ->].
  - rewrite elem_of_app, list_elem_of_singleton. done.
Qed.

Lemma NoDup_add s x : NoDup s → NoDup (add s x).
Proof.
  intros Hs. unfold add. destruct (has s x) eqn:E; [done|].
  apply NoDup_app. split_and!; [done| |apply NoDup_singleton].
  intros y Hy ->%list_elem_of_singleton.
  apply has_true in Hy. congruence.
Qed.

Lemma elem_of_foldl_add l s y : y ∈ foldl add s l ↔ y ∈ s ∨ y ∈ l.
Proof.
  revert s. induction l as [|x l IH]; intros s; simpl.
  - rewrite elem_of_nil. tauto.
  - rewrite IH, elem_of_add, elem_of_cons. tauto.
Qed.

Lemma NoDup_foldl_add l s : NoDup s → NoDup (foldl add s l).
Proof. revert s. induction l; simpl; auto using NoDup_add. Qed.

Lemma elem_of_new l y : y ∈ new l ↔ y ∈ l.
Proof. unfold new. rewrite elem_of_foldl_add, elem_of_nil. tauto. Qed.

Lemma NoDup_new l : NoDup (new l).
Proof. apply NoDup_foldl_add, NoDup_nil_2. Qed.

Lemma size_0 s : size s = 0 ↔ s = [].
Proof. unfold size. destruct s; simpl; split; (done || lia). Qed.

End JsSetFacts.

(** ** Dependency resolution *)
Section DependencyResolverFacts.
Import JsSet JsSetFacts.

Variable getPackageDeps : string → list string.
Variable universe : list string.
Hypothesis finite : ∀ c d, d ∈ getPackageDeps c → d ∈ universe.
Variable packageCoordinates : list string.

Local Abbreviation dep := (dep getPackageDeps).
Local Abbreviation Reachable := (Reachable getPackageDeps packageCoordinates).
Local Abbreviation childDeps := (childDeps getPackageDeps).
Local Abbreviation next_enqueued := (next_enqueued getPackageDeps).
Local Abbreviation world := (universe ++ packageCoordinates).
Local Abbreviation Inv := (Inv getPackageDeps packageCoordinates).

Lemma elem_of_childDeps e d : d ∈ childDeps e ↔ ∃ c, c ∈ e ∧ dep c d.
Proof.
  unfold childDeps, dep, identity.
  rewrite elem_of_new, list_elem_of_filter, bool_decide_spec, list_elem_of_join.
  split.
  - intros [Hne (l & Hd & Hl)]. apply list_elem_of_fmap in Hl as (c & -> & Hc).
    by exists c.
  - intros (c & Hc & Hd & Hne). split; [done|].
    exists (getPackageDeps c). split; [done|]. by apply list_elem_of_fmap_2.
Qed.

Lemma elem_of_next_visited v e x : x ∈ next_visited v e ↔ x ∈ v ∨ x ∈ e.
Proof. unfold next_visited. by rewrite elem_of_new, elem_of_app. Qed.

Lemma elem_of_difference a b x : x ∈ difference a b ↔ x ∈ a ∧ x ∉ b.
Proof.
  unfold difference.
  rewrite elem_of_new, list_elem_of_filter, negb_True, Is_true_true, has_true. tauto.
Qed.

Lemma elem_of_next_enqueued v e x :
  x ∈ next_enqueued v e ↔ (∃ c, c ∈ e ∧ dep c x) ∧ x ∉ v.
Proof.
  unfold next_enqueued.
  by rewrite elem_of_new, elem_of_difference, elem_of_childDeps, elem_of_new.
Qed.

Lemma Reachable_world x : Reachable x → x ∈ world.
Proof.
  intros (r & Hr & Hrx). apply elem_of_app.
  apply rtc_inv_r in Hrx as [->|(c & _ & Hd & _)]; [by right|left].
  by eapply finite.
Qed.

Lemma Inv_first : Inv (new []) (new packageCoordinates).
Proof.
  split.
  - apply NoDup_new.
  - intros x Hx. rewrite elem_of_new in Hx. by apply elem_of_nil in Hx.
  - intros x Hx. rewrite elem_of_new in Hx. exists x. split; [done|constructor].
  - intros c d Hc. rewrite elem_of_new in Hc. by apply elem_of_nil in Hc.
  - intros r Hr. right. by rewrite elem_of_new.
Qed.

Lemma Inv_next v e : Inv v e → Inv (next_visited v e) (next_enqueued v e).
Proof.
  intros [Hnd Hv He Hcl Hin]. split.
  - apply NoDup_new.
  - intros x Hx. rewrite elem_of_next_visited in Hx. destruct Hx; auto.
  - intros x Hx. rewrite elem_of_next_enqueued in Hx.
    destruct Hx as [(c & Hc & Hd) _].
    destruct (He c Hc) as (r & Hr & Hrc). exists r. split; [done|].
    by eapply rtc_r.
  - intros c d Hc Hd. rewrite elem_of_next_visited, elem_of_next_enqueued.
    rewrite elem_of_next_visited in Hc. destruct Hc as [Hc|Hc].
    + left. by eapply Hcl.
    + destruct (decide (d ∈ v)); [by left; left|]. right. split; [|done].
      by exists c.
  - intros r Hr. left. rewrite elem_of_next_visited. auto.
Qed.

Lemma Inv_Called v e : Called getPackageDeps packageCoordinates v e → Inv v e.
Proof. induction 1; auto using Inv_first, Inv_next. Qed.

Lemma Inv_done v c : Inv v [] → (c ∈ v ↔ Reachable c).
Proof.
  intros [Hnd Hv He Hcl Hin]. split; [apply Hv|].
  intros (r & Hr & Hrc). revert c Hrc. apply rtc_ind_r.
  - destruct (Hin r Hr) as [?|H]; [done|]. by apply elem_of_nil in H.
  - intros c d _ Hcd IH.
    destruct (Hcl c d IH Hcd) as [?|H]; [done|]. by apply elem_of_nil in H.
Qed.

Lemma length_filter_le (P Q : string → bool) (l : list string) :
  (∀ x, Q x → P x) →
  (length (filter (λ x, Q x) l) ≤ length (filter (λ x, P x) l))%nat.
Proof.
  intros HQP. induction l as [|x l IH]; [done|].
  rewrite !filter_cons.
  destruct (decide (Q x)) as [HQ|HQ], (decide (P x)) as [HP|HP]; simpl; try lia.
  by destruct HP; apply HQP.
Qed.

Lemma length_filter_lt (P Q : string → bool) (l : list string) y :
  (∀ x, Q x → P x) → y ∈ l → P y → ¬ Q y →
  (length (filter (λ x, Q x) l) < length (filter (λ x, P x) l))%nat.
Proof.
  intros HQP Hy HPy HQy. induction Hy as [y l|y x l Hy IH].
  - rewrite !filter_cons. pose proof (length_filter_le P Q l HQP).
    destruct (decide (Q y)), (decide (P y)); simpl; (done || lia).
  - rewrite !filter_cons.
    specialize (IH HPy HQy).
    destruct (decide (Q x)) as [HQ|HQ], (decide (P x)) as [HP|HP]; simpl; try lia.
    exfalso. auto.
Qed.

Lemma rounds_left_next v e :
  Inv v e → e ≠ [] →
  (rounds_left world (next_visited v e) (next_enqueued v e)
   < rounds_left world v e)%nat.
Proof.
  intros HI Hne. unfold rounds_left, unvisited.
  assert (Hflag : ∀ v' e', (match e' with [] => 0 | _ :: _ =>
                     if forallb (has v') e' then 1 else 0 end ≤ 1)%nat).
  { intros v' [|??]; [lia|]. destruct (forallb _ _); lia. }
  assert (Hmono : ∀ x, negb (has (next_visited v e) x) → negb (has v x)).
  { intros x. rewrite !negb_True, !Is_true_true, !has_true, elem_of_next_visited.
    tauto. }
  destruct e as [|x0 e0]; [done|]. set (e := x0 :: e0) in *.
  destruct (forallb (has v) e) eqn:Hsub.
  - (* only visited coordinates were enqueued: nothing new is visited, and
       what is enqueued next is not visited *)
    apply Is_true_true, forallb_True in Hsub. rewrite Forall_forall in Hsub.
    assert (Hflag' : (match next_enqueued v e with [] => 0 | _ :: _ =>
        if forallb (has (next_visited v e)) (next_enqueued v e) then 1 else 0
        end = 0)%nat).
    { destruct (next_enqueued v e) as [|y e'] eqn:He'; [done|].
      assert (Hy : y ∈ next_enqueued v e) by (rewrite He'; left).
      rewrite elem_of_next_enqueued in Hy. destruct Hy as [_ Hy].
      simpl. destruct (has (next_visited v e) y) eqn:Hhas; [|done].
      apply has_true in Hhas. rewrite elem_of_next_visited in Hhas.
      destruct Hhas as [?|Hye]; [done|]. destruct Hy.
      apply has_true, Is_true_true. by apply Hsub. }
    rewrite Hflag'.
    pose proof (length_filter_le (λ x, negb (has v x))
                  (λ x, negb (has (next_visited v e) x)) world Hmono) as Hle.
    cbv beta in Hle. lia.
  - apply Is_true_false_2 in Hsub. rewrite forallb_True in Hsub.
    apply not_Forall_Exists, Exists_exists in Hsub as (y & Hy & Hny); [|apply _].
    assert (y ∈ world) by (apply Reachable_world; by eapply inv_enqueued).
    assert (negb (has v y)) by (by apply negb_True).
    assert (¬ negb (has (next_visited v e) y)).
    { rewrite negb_True, Is_true_true, has_true, elem_of_next_visited. tauto. }
    pose proof (length_filter_lt (λ x, negb (has v x))
                  (λ x, negb (has (next_visited v e) x)) world y) as Hlt.
    specialize (Hlt Hmono H H0 H1). cbv beta in Hlt.
    specialize (Hflag (next_visited v e) (next_enqueued v e)). lia.
Qed.

Lemma dependencyResolver_terminates fuel v e :
  Inv v e → (rounds_left world v e < fuel)%nat →
  ∃ l, dependencyResolver getPackageDeps fuel v e = Some l
       ∧ NoDup l ∧ ∀ c, c ∈ l ↔ Reachable c.
Proof.
  revert v e. induction fuel as [|fuel IH]; intros v e HI Hfuel; [lia|].
  simpl. destruct (Z.eqb_spec (size e) 0) as [He|He].
  - apply size_0 in He as ->. exists v. split_and!; [done|apply HI|].
    intros c. by apply Inv_done.
  - rewrite size_0 in He. apply IH; [by apply Inv_next|].
    pose proof (rounds_left_next v e HI He). lia.
Qed.

Lemma rounds_left_first :
  (rounds_left world (new []) (new packageCoordinates)
   ≤ 2 * (length universe + length packageCoordinates) + 1)%nat.
Proof.
  unfold rounds_left, unvisited.
  pose proof (length_filter (λ x, negb (has (new []) x)) world) as Hle.
  rewrite length_app in Hle.
  destruct (new packageCoordinates); [lia|]. destruct (forallb _ _); lia.
Qed.

End DependencyResolverFacts.

(** ** Strings and lines *)
Module JsStringFacts.
Import JsString.

Lemma starts_with_LF c s :
  starts_with LF (String c s) = bool_decide (c = "010"%char).
Proof.
  unfold LF. simpl. rewrite andb_true_r.
  apply bool_decide_ext. split; congruence.
Qed.

Lemma app_nil b : "" +:+ b = b.
Proof. reflexivity. Qed.

Lemma app_cons c a b : String c a +:+ b = String c (a +:+ b).
Proof. reflexivity. Qed.

Lemma substring_all s : String.substring 0 (String.length s) s = s.
Proof. induction s as [|c s IH]; [done|]. simpl. by rewrite IH. Qed.

Lemma substring_app_l line rest :
  String.substring 0 (String.length line) (line +:+ rest) = line.
Proof.
  induction line as [|c line IH].
  - rewrite app_nil. by destruct rest.
  - rewrite app_cons. simpl. by rewrite IH.
Qed.

Lemma substring_app_r line rest :
  String.substring (String.length line) (String.length rest) (line +:+ rest) = rest.
Proof.
  induction line as [|c line IH].
  - rewrite app_nil. apply substring_all.
  - rewrite app_cons. simpl. done.
Qed.

Lemma length_app_string a b :
  String.length (a +:+ b) = (String.length a + String.length b)%nat.
Proof.
  induction a as [|c a IH]; [done|]. rewrite app_cons. simpl. by rewrite IH.
Qed.

Lemma app_assoc_string a b c : (a +:+ b) +:+ c = a +:+ (b +:+ c).
Proof.
  induction a as [|x a IH]; [done|]. rewrite !app_cons. by rewrite IH.
Qed.

Lemma app_empty_r a : a +:+ "" = a.
Proof. induction a as [|x a IH]; [done|]. rewrite app_cons. by rewrite IH. Qed.

(** [slice(0, n)] and [slice(n + 1)] around the code unit at [n] *)
Lemma slice_before line c rest :
  slice (line +:+ String c rest) 0 (Z.of_nat (String.length line)) = line.
Proof.
  unfold slice, length. rewrite length_app_string. simpl.
  replace (0 <? 0) with false by done.
  destruct (Z.ltb_spec (Z.of_nat (String.length line)) 0) as [?|_]; [lia|].
  rewrite Z.min_l, Z.min_l by lia. simpl.
  rewrite Z.sub_0_r, Z.max_l, Nat2Z.id by lia. apply substring_app_l.
Qed.

Lemma slice_after line c rest :
  slice_from (line +:+ String c rest) (Z.of_nat (String.length line) + 1) = rest.
Proof.
  unfold slice_from, slice, length. rewrite length_app_string. simpl.
  destruct (Z.ltb_spec (Z.of_nat (String.length line) + 1) 0) as [?|_]; [lia|].
  destruct (Z.ltb_spec (Z.of_nat (String.length line + S (String.length rest))) 0)
    as [?|_]; [lia|].
  rewrite Z.min_l, Z.min_r by lia.
  replace (Z.to_nat (Z.of_nat (String.length line) + 1))
    with (String.length (line +:+ String c EmptyString))
    by (rewrite length_app_string; simpl; lia).
  replace (Z.to_nat _) with (String.length rest) by lia.
  assert (line +:+ String c rest = (line +:+ String c EmptyString) +:+ rest) as ->.
  { by rewrite app_assoc_string. }
  apply substring_app_r.
Qed.

Lemma indexOf_at_LF s p :
  (indexOf_at LF s p = -1 ∧ split_lines s = ([], s))
  ∨ (∃ line rest,
       indexOf_at LF s p = p + Z.of_nat (String.length line)
       ∧ s = line +:+ String "010" rest
       ∧ split_lines s = (line :: (split_lines rest).1, (split_lines rest).2)).
Proof.
  revert p. induction s as [|c s IH]; intros p.
  - left. done.
  - cbn [indexOf_at]. rewrite starts_with_LF. case_bool_decide as Hc.
    + subst c. right. exists "", s. split_and!; [simpl; lia|done|].
      simpl. by destruct (split_lines s).
    + destruct (IH (p + 1)) as [[Hi Hs]|(line & rest & Hi & Hs & Hl)].
      * left. split; [done|]. simpl. rewrite Hs. by rewrite decide_False.
      * right. exists (String c line), rest. split_and!.
        -- rewrite Hi. simpl String.length. lia.
        -- by rewrite app_cons, <- Hs.
        -- simpl. rewrite Hl. by rewrite decide_False.
Qed.

Lemma split_lines_rest s :
  split_lines (split_lines s).2 = ([], (split_lines s).2).
Proof.
  induction s as [|c s IH]; [done|].
  simpl. destruct (split_lines s) as [lines rest]. simpl in IH.
  destruct (decide (c = "010"%char)); [done|].
  destruct lines; simpl; [|done]. rewrite IH. by rewrite decide_False.
Qed.

Lemma split_lines_no_line s : (split_lines s).1 = [] → (split_lines s).2 = s.
Proof.
  induction s as [|c s IH]; [done|].
  simpl. destruct (split_lines s) as [lines rest]. simpl in IH.
  destruct (decide (c = "010"%char)); [done|].
  destruct lines; simpl; [|done]. intros _. by rewrite IH.
Qed.

Lemma split_lines_app a b :
  split_lines (a +:+ b)
  = ((split_lines a).1 ++ (split_lines ((split_lines a).2 +:+ b)).1,
     (split_lines ((split_lines a).2 +:+ b)).2).
Proof.
  induction a as [|c a IH].
  - rewrite app_nil. simpl. rewrite app_nil. by destruct (split_lines b).
  - rewrite app_cons. simpl. rewrite IH.
    destruct (split_lines a) as [lines rest]. simpl.
    destruct (decide (c = "010"%char)); [done|].
    destruct lines as [|line lines]; simpl; [|done].
    destruct (split_lines (rest +:+ b)) as [lines' rest'].
    rewrite decide_False by done. by destruct lines'.
Qed.

Lemma terminated_lines_app a b :
  terminated_lines (a +:+ b)
  = terminated_lines a ++ terminated_lines (unterminated_rest a +:+ b).
Proof. unfold terminated_lines, unterminated_rest. by rewrite split_lines_app. Qed.

Lemma unterminated_rest_app a b :
  unterminated_rest (a +:+ b) = unterminated_rest (unterminated_rest a +:+ b).
Proof. unfold unterminated_rest. by rewrite split_lines_app. Qed.

(** A tail without line feed adds no line. *)
Lemma terminated_lines_tail text tail :
  indexOf tail LF = -1 →
  terminated_lines (text +:+ tail) = terminated_lines text.
Proof.
  intros Htail. rewrite terminated_lines_app.
  assert (Hno : ∀ a, terminated_lines a = [] → terminated_lines (a +:+ tail) = []).
  { unfold terminated_lines. induction a as [|c a IH].
    - intros _. rewrite app_nil.
      destruct (indexOf_at_LF tail 0) as [[_ ->]|(line & rest & Hi & _)]; [done|].
      unfold indexOf in Htail. lia.
    - rewrite app_cons. simpl.
      destruct (split_lines a) as [lines rest] eqn:Ha.
      destruct (decide (c = "010"%char)); [done|].
      destruct lines; simpl; [|done]. intros _.
      specialize (IH eq_refl). destruct (split_lines (a +:+ tail)). simpl in IH.
      by subst. }
  rewrite Hno, app_nil_r; [done|].
  unfold terminated_lines, unterminated_rest. by rewrite split_lines_rest.
Qed.

End JsStringFacts.

(** ** The loop over the lines of a stream *)
Section Lines.
Import JsString JsStringFacts.
Context {S R : Type} (body : string → S → Flow S R).

Lemma while_newline_lines fuel buffer s :
  (String.length buffer ≤ fuel)%nat →
  while_newline body fuel buffer s
  = flow_then (over_lines body (terminated_lines buffer) s)
      (λ s', Continue (unterminated_rest buffer, s')).
Proof.
  unfold terminated_lines, unterminated_rest.
  revert buffer s. induction fuel as [|fuel IH]; intros buffer s Hfuel.
  - destruct buffer; [done|simpl in Hfuel; lia].
  - cbn [while_newline]. unfold indexOf.
    destruct (indexOf_at_LF buffer 0) as [[-> ->]|(line & rest & -> & -> & ->)].
    + done.
    + destruct (Z.eqb_spec (0 + Z.of_nat (String.length line)) (-1)) as [?|_]; [lia|].
      cbn [negb]. rewrite Z.add_0_l, slice_before, slice_after.
      cbn [over_lines flow_then fst snd]. destruct (body line s) as [s'| |]; try done.
      apply IH. rewrite length_app_string in Hfuel. simpl in Hfuel. lia.
Qed.

Lemma over_lines_app lines1 lines2 s :
  over_lines body (lines1 ++ lines2) s
  = flow_then (over_lines body lines1 s) (over_lines body lines2).
Proof.
  revert s. induction lines1 as [|line lines1 IH]; intros s; [done|].
  simpl. destruct (body line s); auto.
Qed.

(** The chunks are read as the lines of their concatenation: how the text
    is cut into chunks does not matter. *)
Lemma read_chunks_lines chunks buffer s :
  terminated_lines buffer = [] →
  read_chunks body chunks (buffer, s)
  = flow_then (over_lines body (terminated_lines (buffer +:+ text_of chunks)) s)
      (λ s', Continue (unterminated_rest (buffer +:+ text_of chunks), s')).
Proof.
  revert buffer s. induction chunks as [|chunk chunks IH]; intros buffer s Hbuffer.
  - simpl. rewrite app_empty_r, Hbuffer. simpl.
    unfold unterminated_rest. by rewrite split_lines_no_line.
  - cbn [read_chunks text_of foldr]. unfold on_chunk. cbn [fst snd].
    rewrite while_newline_lines by done.
    rewrite <- app_assoc_string.
    rewrite (terminated_lines_app (buffer +:+ chunk)), over_lines_app.
    rewrite (unterminated_rest_app (buffer +:+ chunk)).
    destruct (over_lines body (terminated_lines (buffer +:+ chunk)) s) as [s'| |];
      cbn [flow_then]; try done.
    apply IH. unfold terminated_lines, unterminated_rest.
    by rewrite split_lines_rest.
Qed.

Lemma read_chunks_text chunks s :
  read_chunks body chunks ("", s)
  = flow_then (over_lines body (terminated_lines (text_of chunks)) s)
      (λ s', Continue (unterminated_rest (text_of chunks), s')).
Proof. by rewrite read_chunks_lines. Qed.

End Lines.

(** ** Blank lines and delimiter lines *)
Section Delimiter.
Import JsString JsStringFacts.

Lemma indexOf_at_found searchString s p :
  indexOf_at searchString s p ≠ -1 →
  ∃ a b, s = a +:+ b ∧ starts_with searchString b = true.
Proof.
  revert p. induction s as [|c s IH]; intros p; cbn [indexOf_at].
  - destruct (starts_with searchString "") eqn:E; [|done]. by exists "", "".
  - destruct (starts_with searchString (String c s)) eqn:E.
    + by exists "", (String c s).
    + intros (a & b & -> & Hb)%IH. by exists (String c a), b.
Qed.

Lemma all_white_app a b : all_white (a +:+ b) = all_white a && all_white b.
Proof.
  induction a as [|c a IH]; [done|]. rewrite app_cons. simpl.
  by rewrite IH, andb_assoc.
Qed.

Lemma trimStart_all_white s : all_white (trimStart s) = true → trimStart s = "".
Proof.
  induction s as [|c s IH]; [done|]. simpl.
  destruct (isWhiteSpace c) eqn:Hc; [done|]. simpl. by rewrite Hc.
Qed.

Lemma all_white_trimStart s : trimStart s = "" → all_white s = true.
Proof.
  induction s as [|c s IH]; [done|]. simpl.
  destruct (isWhiteSpace c) eqn:Hc; [done|]. done.
Qed.

Lemma all_white_trimEnd s : trimEnd s = "" → all_white s = true.
Proof.
  induction s as [|c s IH]; [done|]. simpl.
  destruct (trimEnd s); [|done].
  destruct (isWhiteSpace c); [|done]. auto.
Qed.

Lemma trim_empty s : trim s = "" → all_white s = true.
Proof.
  unfold trim. intros Ht.
  by apply all_white_trimStart, trimStart_all_white, all_white_trimEnd.
Qed.

(** A line that contains the delimiter is not blank, so the order of the
    two tests in the loop does not matter. *)
Lemma is_delimiter_not_blank line : is_delimiter line = true → is_blank line = false.
Proof.
  unfold is_delimiter, is_blank, includes, indexOf. intros Hd.
  apply negb_true_iff, Z.eqb_neq, indexOf_at_found in Hd as (a & b & -> & Hb).
  apply bool_decide_eq_false_2. intros Ht%trim_empty.
  rewrite all_white_app in Ht. apply andb_true_iff in Ht as [_ Ht].
  destruct b as [|c b]; [done|]. simpl in Hb.
  apply andb_true_iff in Hb as [Hc%bool_decide_eq_true _]. subst c. done.
Qed.

End Delimiter.

(** ** The loop of [loadPackageSchemas] *)
Section LoadLoop.
Context `{JsNumber}.

Variable consider : JsObject → string → Completion JsObject.
Variable body : string → bool * JsObject → Completion (bool * JsObject).
Hypothesis body_eq : ∀ line pastDelimiter schemas,
  body line (pastDelimiter, schemas)
  = if is_blank line then mret (pastDelimiter, schemas)
    else if is_delimiter line then mret (true, schemas)
    else if pastDelimiter
         then schemas ← consider schemas line; mret (pastDelimiter, schemas)
         else mret (pastDelimiter, schemas).

Local Abbreviation entry :=
  (λ line : string, Is_true (negb (is_blank line) && negb (is_delimiter line))).
Local Abbreviation run := (over_lines (R := Empty_set) (λ line state, flow_of (body line state))).

Lemma load_lines_past lines schemas :
  flow_then (run lines (true, schemas)) (λ state, Continue state.2)
  = flow_of (consider_all consider schemas (filter entry lines)).
Proof.
  revert schemas. induction lines as [|line lines IH]; intros schemas; [done|].
  cbn [over_lines]. rewrite body_eq, filter_cons.
  destruct (is_blank line) eqn:Hb; cbn [negb andb].
  { rewrite decide_False by (intros []). apply IH. }
  destruct (is_delimiter line) eqn:Hd; cbn [negb andb].
  { rewrite decide_False by (intros []). apply IH. }
  rewrite decide_True by exact I. cbn [consider_all].
  destruct (consider schemas line) as [schemas'|e]; [apply IH|done].
Qed.

Lemma load_lines lines schemas :
  flow_then (run lines (false, schemas)) (λ state, Continue state.2)
  = flow_of (consider_all consider schemas (filter entry (after_delimiter lines))).
Proof.
  induction lines as [|line lines IH]; [done|].
  cbn [over_lines after_delimiter]. rewrite body_eq.
  destruct (is_delimiter line) eqn:Hd.
  - rewrite (is_delimiter_not_blank line Hd). apply load_lines_past.
  - by destruct (is_blank line).
Qed.

Lemma load_chunks chunks schemas :
  flow_then (read_chunks (R := Empty_set)
               (λ line state, flow_of (body line state)) chunks
               ("", (false, schemas)))
    (λ state, Continue state.2.2)
  = flow_of (consider_all consider schemas (entry_lines (text_of chunks))).
Proof.
  rewrite read_chunks_text. unfold entry_lines. rewrite <- load_lines.
  by destruct (run _ _) as [[??]|[]|].
Qed.

End LoadLoop.

(** ** [loadPackageSchemas] and [getSpecificLineFromNdjson] on a response *)
Section Responses.
Context `{JsonParser}.

Lemma Node_body_eq line pastDelimiter schemas :
  Node.loadPackageSchemas_line line (pastDelimiter, schemas)
  = if is_blank line then mret (pastDelimiter, schemas)
    else if is_delimiter line then mret (true, schemas)
    else if pastDelimiter
         then schemas ← Node.consider schemas line; mret (pastDelimiter, schemas)
         else mret (pastDelimiter, schemas).
Proof. reflexivity. Qed.

Lemma Browser_body_eq line pastDelimiter schemas :
  Browser.loadPackageSchemas_line line (pastDelimiter, schemas)
  = if is_blank line then mret (pastDelimiter, schemas)
    else if is_delimiter line then mret (true, schemas)
    else if pastDelimiter
         then schemas ← Browser.consider schemas line; mret (pastDelimiter, schemas)
         else mret (pastDelimiter, schemas).
Proof. reflexivity. Qed.

Lemma Browser_consider_eq schemas line :
  Browser.consider schemas line = Node.consider schemas line.
Proof. reflexivity. Qed.

Lemma consider_all_ext (f g : JsObject → string → Completion JsObject) schemas lines :
  (∀ schemas line, f schemas line = g schemas line) →
  consider_all f schemas lines = consider_all g schemas lines.
Proof.
  intros Hfg. revert schemas. induction lines as [|line lines IH]; intros schemas.
  - done.
  - simpl. rewrite Hfg. destruct (g schemas line); simpl; auto.
Qed.

Lemma Node_load_response schemas response :
  Node.loadPackageSchemas_response schemas response
  = if negb (statusCode response =? 200) then Rejected
    else match consider_all Node.consider schemas
                 (entry_lines (text_of (chunks response))) with
         | Throw _ => Uncaught
         | Normal schemas => if fails response then Rejected else Resolved schemas
         end.
Proof.
  unfold Node.loadPackageSchemas_response.
  destruct (negb (statusCode response =? 200)); [done|].
  pose proof (load_chunks Node.consider Node.loadPackageSchemas_line
                Node_body_eq (chunks response) schemas) as Hrun.
  destruct (read_chunks _ _ _) as [[buffer [past m]]|[]|e]; simpl in Hrun;
    destruct (consider_all _ _ _); simpl in Hrun; try congruence;
    by injection Hrun as ->.
Qed.

Lemma Browser_load_response schemas response :
  Browser.loadPackageSchemas_response schemas response
  = if negb (ok response) then Resolved schemas
    else match consider_all Browser.consider schemas
                 (entry_lines (text_of (chunks response))) with
         | Throw _ => Rejected
         | Normal schemas => if fails response then Rejected else Resolved schemas
         end.
Proof.
  unfold Browser.loadPackageSchemas_response.
  destruct (negb (ok response)); [done|].
  pose proof (load_chunks Browser.consider Browser.loadPackageSchemas_line
                Browser_body_eq (chunks response) schemas) as Hrun.
  destruct (read_chunks _ _ _) as [[buffer [past m]]|[]|e]; simpl in Hrun;
    destruct (consider_all _ _ _); simpl in Hrun; try congruence;
    by injection Hrun as ->.
Qed.

(** Before its target the loop of [getSpecificLineFromNdjson] only counts. *)
Lemma Browser_count_lines targetLine lines currentLine :
  currentLine + Z.of_nat (length lines) < targetLine →
  over_lines (Browser.getSpecificLineFromNdjson_line targetLine) lines currentLine
  = Continue (currentLine + Z.of_nat (length lines)).
Proof.
  revert currentLine. induction lines as [|line lines IH]; intros currentLine Hlt.
  - simpl. f_equal. lia.
  - cbn [over_lines]. unfold Browser.getSpecificLineFromNdjson_line at 1.
    cbn [length] in Hlt.
    destruct (Z.eqb_spec (currentLine + 1) targetLine) as [?|_]; [lia|].
    rewrite IH by lia. f_equal. cbn [length]. lia.
Qed.

Lemma Node_count_lines targetLine lines currentLine :
  currentLine + Z.of_nat (length lines) < targetLine →
  over_lines (Node.getSpecificLineFromNdjson_line targetLine) lines currentLine
  = Continue (currentLine + Z.of_nat (length lines)).
Proof.
  revert currentLine. induction lines as [|line lines IH]; intros currentLine Hlt.
  - simpl. f_equal. lia.
  - cbn [over_lines]. unfold Node.getSpecificLineFromNdjson_line at 1.
    cbn [length] in Hlt.
    destruct (Z.eqb_spec (currentLine + 1) targetLine) as [?|_]; [lia|].
    rewrite IH by lia. f_equal. cbn [length]. lia.
Qed.

(** Asked for the line after the last line feed, the browser function
    answers [null]. *)
Lemma Browser_final_line response :
  Browser.getSpecificLineFromNdjson_response
    (final_line_number (text_of (chunks response))) response
  = Resolved null.
Proof.
  unfold Browser.getSpecificLineFromNdjson_response, final_line_number.
  destruct (negb (ok response)); [done|].
  rewrite read_chunks_text, Browser_count_lines by lia. done.
Qed.

(** The Node function rejects there: its ["end"] listener finds
    [currentLine < targetLine]. *)
Lemma Node_final_line response :
  statusCode response = 200 →
  Node.getSpecificLineFromNdjson_response
    (final_line_number (text_of (chunks response))) response
  = Rejected.
Proof.
  intros Hstatus.
  unfold Node.getSpecificLineFromNdjson_response, final_line_number.
  rewrite Hstatus. cbn [Z.eqb Pos.eqb negb].
  rewrite read_chunks_text, Node_count_lines by lia. cbn [flow_then].
  destruct (fails response); [done|].
  by destruct (Z.ltb_spec (0 + Z.of_nat (length (terminated_lines (text_of (chunks response)))))
              (Z.of_nat (length (terminated_lines (text_of (chunks response)))) + 1));
    [|lia].
Qed.

End Responses.

(** ** What [loadPackageSchemas] considers *)
Section Considered.
Context `{JsonParser}.

Lemma get_not_null schema name :
  schema ≠ JNull → ∃ v, get schema name = Normal v.
Proof. intros Hnull. destruct schema; simpl; eauto. done. Qed.

Lemma consider_well_formed schemas line :
  well_formed_entry line → ∃ schemas', Node.consider schemas line = Normal schemas'.
Proof.
  intros (schema & Hparse & Hnull & Hkeys). unfold Node.consider, parse.
  rewrite Hparse. cbn [mbind Completion_bind].
  destruct (get_not_null schema "elements" Hnull) as [elements ->].
  destruct (get_not_null schema "kind" Hnull) as [kind ->].
  destruct (get_not_null schema "name" Hnull) as [name Hname].
  destruct (get_not_null schema "url" Hnull) as [url Hurl].
  cbn [mbind Completion_bind]. destruct (_ || _); [|by eexists].
  rewrite Hname, Hurl. cbn [mbind Completion_bind].
  assert (Hn : key_convertible name) by (eapply Hkeys; [|done]; set_solver).
  assert (Hu : key_convertible url) by (eapply Hkeys; [|done]; set_solver).
  unfold key_convertible in Hn, Hu.
  destruct (ToBoolean name).
  - destruct (Hn eq_refl) as [key ->].
    cbn [mbind mret Completion_bind Completion_ret].
    destruct (ToBoolean url).
    + destruct (Hu eq_refl) as [key' ->]. by eexists.
    + by eexists.
  - cbn [mbind mret Completion_bind Completion_ret]. destruct (ToBoolean url).
    + destruct (Hu eq_refl) as [key' ->]. by eexists.
    + by eexists.
Qed.

Lemma consider_all_well_formed schemas lines :
  (∀ line, line ∈ lines → well_formed_entry line) →
  ∃ schemas', consider_all Node.consider schemas lines = Normal schemas'.
Proof.
  revert schemas. induction lines as [|line lines IH]; intros schemas Hwf.
  - by eexists.
  - destruct (consider_well_formed schemas line) as [schemas' Hc]; [apply Hwf; left|].
    cbn [consider_all]. rewrite Hc. cbn [mbind Completion_bind].
    apply IH. intros l Hl. apply Hwf. by right.
Qed.

End Considered.

(** C2 (amended). [loadPackageSchemas], in both files, reads a package
    stream as the lines of its text that end in a line feed, however the
    text is cut into chunks. No line at or before the first line that
    contains "fhir-schema/delimiter" reaches the map. The lines parsed and
    considered as FHIR Schema entries are exactly the lines after it that
    are not blank and do not contain "fhir-schema/delimiter" themselves, in
    their order. *)
Theorem loadPackageSchemas_considers_entry_lines `{JsonParser}
    (network : Network) (packageCoordinate : string) :
  Node.loadPackageSchemas network packageCoordinate
  = match network (buildPackageFileUrl packageCoordinate) with
    | None => Rejected
    | Some response =>
        if negb (statusCode response =? 200) then Rejected
        else match consider_all Node.consider empty_object
                     (entry_lines (text_of (chunks response))) with
             | Throw _ => Uncaught
             | Normal schemas => if fails response then Rejected else Resolved schemas
             end
    end
  ∧ Browser.loadPackageSchemas network packageCoordinate
    = match network (buildPackageFileUrl packageCoordinate) with
      | None => Rejected
      | Some response =>
          if negb (ok response) then Resolved empty_object
          else match consider_all Browser.consider empty_object
                       (entry_lines (text_of (chunks response))) with
               | Throw _ => Rejected
               | Normal schemas => if fails response then Rejected else Resolved schemas
               end
      end.
Proof.
  unfold Node.loadPackageSchemas, Browser.loadPackageSchemas.
  destruct (network (buildPackageFileUrl packageCoordinate)) as [response|]; [|done].
  by rewrite Node_load_response, Browser_load_response.
Qed.

(** C2, as stated, fails: a schema line after the delimiter whose text
    mentions "fhir-schema/delimiter" is a non-blank line after the delimiter,
    and considering it would store the schema, yet both implementations
    return an empty map. *)
Lemma later_line_with_delimiter_text_is_skipped :
  let line :=
    Fixture.q "{'name':'Note','kind':'primitive-type','description':'see fhir-schema/delimiter'}" in
  let text := Fixture.file ["['fhir-schema/delimiter']"; line] in
  line ∈ nonblank_lines_after_delimiter text
  ∧ (∃ schemas, Node.consider empty_object line = Normal schemas
                ∧ is_Some (own schemas !! "Note"))
  ∧ Node.loadPackageSchemas_response empty_object (Fixture.serve text)
    = Resolved empty_object
  ∧ Browser.loadPackageSchemas_response empty_object (Fixture.serve text)
    = Resolved empty_object.
Proof.
  cbv zeta. split_and!.
  - refine (bool_decide_unpack _ _). by vm_compute.
  - eexists. split; [by vm_compute|]. eexists. by vm_compute.
  - by vm_compute.
  - by vm_compute.
Qed.

(** C9. Only lines ended by a line feed are processed. When the text of a
    stream goes on after its last line feed, that tail is dropped at the end
    of the stream: [loadPackageSchemas], in both files, returns what it
    returns without the tail, so a schema entry on an unterminated final line
    is missing from the map; and the browser [getSpecificLineFromNdjson],
    asked for that final line, answers [null], whatever the line holds. *)
Theorem unterminated_final_line_is_dropped `{JsonParser}
    (network network' : Network) (packageCoordinate : string)
    (response response' : Response) (tail : string) :
  network (buildPackageFileUrl packageCoordinate) = Some response →
  network' (buildPackageFileUrl packageCoordinate) = Some response' →
  statusCode response' = statusCode response →
  fails response' = fails response →
  text_of (chunks response') = text_of (chunks response) +:+ tail →
  JsString.indexOf tail JsString.LF = -1 →
  Node.loadPackageSchemas network' packageCoordinate
  = Node.loadPackageSchemas network packageCoordinate
  ∧ Browser.loadPackageSchemas network' packageCoordinate
    = Browser.loadPackageSchemas network packageCoordinate
  ∧ Browser.getSpecificLineFromNdjson network'
      (buildPackageFileUrl packageCoordinate)
      (final_line_number (text_of (chunks response')))
    = Resolved null.
Proof.
  intros Hnet Hnet' Hstatus Hfails Htext Htail.
  assert (Hentries : entry_lines (text_of (chunks response'))
                     = entry_lines (text_of (chunks response))).
  { unfold entry_lines. by rewrite Htext, JsStringFacts.terminated_lines_tail. }
  unfold Node.loadPackageSchemas, Browser.loadPackageSchemas,
    Browser.getSpecificLineFromNdjson.
  rewrite Hnet, Hnet', !Node_load_response, !Browser_load_response.
  unfold ok. rewrite Hentries, Hstatus, Hfails.
  split_and!; [done..|]. apply Browser_final_line.
Qed.

(** C9 at work: the package text ends with a schema line that no line feed
    follows. *)
Lemma unterminated_final_line_is_dropped_witness :
  JsString.indexOf Fixture.string_schema JsString.LF = -1
  ∧ Node.loadPackageSchemas
      (Fixture.registry Fixture.core
         (Fixture.serve (Fixture.preamble +:+ Fixture.string_schema))) Fixture.core
    = Node.loadPackageSchemas
        (Fixture.registry Fixture.core (Fixture.serve Fixture.preamble)) Fixture.core
  ∧ Browser.loadPackageSchemas
      (Fixture.registry Fixture.core
         (Fixture.serve (Fixture.preamble +:+ Fixture.string_schema))) Fixture.core
    = Browser.loadPackageSchemas
        (Fixture.registry Fixture.core (Fixture.serve Fixture.preamble)) Fixture.core
  ∧ Browser.getSpecificLineFromNdjson
      (Fixture.registry Fixture.core
         (Fixture.serve (Fixture.preamble +:+ Fixture.string_schema)))
      (buildPackageFileUrl Fixture.core)
      (final_line_number (text_of (chunks
         (Fixture.serve (Fixture.preamble +:+ Fixture.string_schema)))))
    = Resolved null.
Proof.
  split; [by vm_compute|].
  apply (unterminated_final_line_is_dropped
           (Fixture.registry Fixture.core (Fixture.serve Fixture.preamble))
           (Fixture.registry Fixture.core
              (Fixture.serve (Fixture.preamble +:+ Fixture.string_schema)))
           Fixture.core
           (Fixture.serve Fixture.preamble)
           (Fixture.serve (Fixture.preamble +:+ Fixture.string_schema))
           Fixture.string_schema);
    by vm_compute.
Defined.

(** ** From bytes to text *)
Section DecodingFacts.
Import Decoding JsStringFacts.

Lemma decode_app_strong n : ∀ a b ta,
  (length a ≤ n)%nat →
  decode a = Some ta → decode (a ++ b) = (String.append ta) <$> decode b.
Proof.
  induction n as [|n IH]; intros a b ta Hn.
  - destruct a; [|simpl in Hn; lia]. intros [= <-]. simpl. destruct (decode b); reflexivity.
  - destruct a as [|x a]; [intros [= <-]; simpl; destruct (decode b); reflexivity|].
    cbn [decode app]. simpl in Hn.
    destruct (Byte.to_N x <? 128)%N.
    + destruct (decode a) as [t|] eqn:Ha; [|done]. intros [= <-].
      rewrite (IH a b t) by (lia || done). destruct (decode b); reflexivity.
    + destruct (lead_of_two x); [|done].
      destruct a as [|c a]; [done|]. cbn [app].
      destruct (continuation c); [|done].
      destruct (decode a) as [t|] eqn:Ha; [|done]. intros [= <-].
      simpl in Hn. rewrite (IH a b t) by (lia || done). destruct (decode b); reflexivity.
Qed.

Lemma decode_app a b ta :
  decode a = Some ta → decode (a ++ b) = (String.append ta) <$> decode b.
Proof. by apply (decode_app_strong (length a)). Qed.

(** Chunks that decode one by one decode together, to the same text. *)
Lemma decode_chunks chunks texts :
  mapM Buffer_toString chunks = Some texts →
  decode (mjoin chunks) = Some (text_of texts).
Proof.
  unfold Buffer_toString.
  revert texts. induction chunks as [|chunk chunks IH]; intros texts.
  - by intros [= <-].
  - change (mjoin (chunk :: chunks)) with (chunk ++ mjoin chunks).
    cbn [mapM mbind option_bind].
    destruct (decode chunk) as [t|] eqn:Hchunk; [|by intros [=]].
    cbn [mbind option_bind].
    destruct (mapM _ chunks) as [ts|] eqn:Hchunks; [|by intros [=]].
    intros [= <-]. by rewrite (decode_app chunk _ t Hchunk), (IH ts eq_refl).
Qed.

Lemma lead_of_two_not_ascii b : lead_of_two b = true → (Byte.to_N b <? 128)%N = false.
Proof.
  unfold lead_of_two. intros [?%N.eqb_eq|?%N.eqb_eq]%orb_true_iff;
    apply N.ltb_ge; lia.
Qed.

(** What is decoded of the first bytes, and what is kept back of them, when
    all the bytes decode. *)
Lemma decode_complete_strong n : ∀ bytes rest t,
  (length bytes ≤ n)%nat →
  decode (bytes ++ rest) = Some t →
  ∃ text pending t',
    decode_complete bytes = Some (text, pending)
    ∧ kept_back pending
    ∧ decode (pending ++ rest) = Some t'
    ∧ t = text +:+ t'.
Proof.
  induction n as [|n IH]; intros bytes rest t Hn Ht.
  - destruct bytes; [|simpl in Hn; lia]. exists "", [], t. by split_and!; [|left|..].
  - destruct bytes as [|b bytes]; [exists "", [], t; by split_and!; [|left|..]|].
    simpl in Hn. cbn [app decode] in Ht. cbn [decode_complete].
    destruct (Byte.to_N b <? 128)%N eqn:Hb.
    + destruct (decode (bytes ++ rest)) as [t0|] eqn:Ht0; [|done].
      injection Ht as <-.
      destruct (IH bytes rest t0) as (text & pending & t' & -> & Hk & Hp & ->);
        [lia|done|].
      by exists (String (ascii_of_byte b) text), pending, t'.
    + destruct (lead_of_two b) eqn:Hlead; [|done].
      destruct bytes as [|c bytes].
      * exists "", [b], t. split_and!; [done|right; by exists b| |done].
        cbn [app decode]. by rewrite Hb, Hlead.
      * cbn [app] in Ht. destruct (continuation c); [|done].
        destruct (decode (bytes ++ rest)) as [t0|] eqn:Ht0; [|done].
        injection Ht as <-. simpl in Hn.
        destruct (IH bytes rest t0) as (text & pending & t' & -> & Hk & Hp & ->);
          [lia|done|].
        by exists (String (two_octets b c) text), pending, t'.
Qed.

(** A decoder that is past the start of its text delivers, chunk after
    chunk, the text that all its bytes decode to. *)
Lemma stream_decodes chunks : ∀ pending t,
  kept_back pending →
  decode (pending ++ mjoin chunks) = Some t →
  ∃ texts, TextDecoderStream_from false pending chunks = Some texts
           ∧ text_of texts = t.
Proof.
  induction chunks as [|chunk chunks IH]; intros pending t Hk Ht.
  - change (mjoin []) with (@nil byte) in Ht. rewrite app_nil_r in Ht.
    destruct Hk as [->|(b & -> & Hlead)].
    + injection Ht as <-. by exists [].
    + cbn [decode] in Ht. by rewrite (lead_of_two_not_ascii b Hlead), Hlead in Ht.
  - change (mjoin (chunk :: chunks)) with (chunk ++ mjoin chunks) in Ht.
    rewrite app_assoc in Ht.
    cbn [TextDecoderStream_from andb]. cbv zeta.
    destruct (decode_complete_strong _ (pending ++ chunk) (mjoin chunks) t (le_n _) Ht)
      as (text & pending' & t' & -> & Hk' & Hp & ->).
    cbn [mbind option_bind].
    destruct (IH pending' t' Hk' Hp) as (texts & -> & <-).
    by exists (text :: texts).
Qed.

(** So does a decoder at the start of its text, which has no byte order
    mark to remove when the bytes decode as they are. *)
Lemma TextDecoderStream_decodes chunks t :
  decode (mjoin chunks) = Some t →
  ∃ texts, TextDecoderStream chunks = Some texts ∧ text_of texts = t.
Proof.
  unfold TextDecoderStream.
  induction chunks as [|chunk chunks IH]; intros Ht.
  - injection Ht as <-. by exists [].
  - change (mjoin (chunk :: chunks)) with (chunk ++ mjoin chunks) in Ht.
    cbn [TextDecoderStream_from app]. cbv zeta.
    destruct chunk as [|b chunk].
    + rewrite bool_decide_eq_true_2 by (cbn; left). cbn [andb].
      destruct (IH Ht) as (texts & -> & <-). by exists ("" :: texts).
    + assert (Hb : Byte.to_N b ≠ 239%N).
      { intros Hb. cbn [app decode] in Ht. unfold lead_of_two in Ht.
        rewrite Hb in Ht. done. }
      rewrite bool_decide_eq_false_2.
      2:{ cbn [fmap list_fmap take BOM]. rewrite !elem_of_cons, elem_of_nil.
          intros [?|[[= ?]|[[= ? _]|[]]]]; done. }
      rewrite bool_decide_eq_false_2.
      2:{ destruct chunk as [|? [|? ?]]; cbn; intros [= ?]; done. }
      cbn [andb].
      destruct (decode_complete_strong _ (b :: chunk) (mjoin chunks) t (le_n _) Ht)
        as (text & pending & t' & -> & Hk & Hp & ->).
      cbn [mbind option_bind].
      destruct (stream_decodes chunks pending t' Hk Hp) as (texts & -> & <-).
      by exists (text :: texts).
Qed.

(** When Node decodes every chunk it receives, the browser decodes the same
    bytes, however they are cut, to the same text. *)
Lemma same_bytes_same_text (node_download browser_download : Download)
    (node_response : Response) :
  Node_response node_download = Some node_response →
  mjoin (buffers node_download) = mjoin (buffers browser_download) →
  ∃ browser_response,
    Browser_response browser_download = Some browser_response
    ∧ statusCode browser_response = status browser_download
    ∧ fails browser_response = broken browser_download
    ∧ text_of (chunks browser_response) = text_of (chunks node_response).
Proof.
  unfold Node_response, Browser_response. intros Hnode Hbytes.
  destruct (mapM Buffer_toString (buffers node_download)) as [texts|] eqn:Htexts;
    [|done].
  injection Hnode as <-. apply decode_chunks in Htexts. rewrite Hbytes in Htexts.
  destruct (TextDecoderStream_decodes _ _ Htexts) as (texts' & -> & Htext).
  by eexists.
Qed.

End DecodingFacts.

Section SameText.
Context `{JsonParser}.

(** Responses that spell the same text load alike. *)
Lemma same_text_same_maps (https_get fetch : Network) (packageCoordinate : string)
    (node_response browser_response : Response) :
  https_get (buildPackageFileUrl packageCoordinate) = Some node_response →
  fetch (buildPackageFileUrl packageCoordinate) = Some browser_response →
  statusCode node_response = 200 →
  statusCode browser_response = 200 →
  fails node_response = false →
  fails browser_response = false →
  text_of (chunks node_response) = text_of (chunks browser_response) →
  (∀ line, line ∈ entry_lines (text_of (chunks node_response)) →
           well_formed_entry line) →
  ∃ schemas,
    Node.loadPackageSchemas https_get packageCoordinate = Resolved schemas
    ∧ Browser.loadPackageSchemas fetch packageCoordinate = Resolved schemas.
Proof.
  intros Hnode Hbrowser Hsn Hsb Hfn Hfb Htext Hwf.
  destruct (consider_all_well_formed empty_object _ Hwf) as [schemas Hall].
  exists schemas.
  unfold Node.loadPackageSchemas, Browser.loadPackageSchemas.
  rewrite Hnode, Hbrowser, Node_load_response, Browser_load_response.
  unfold ok. rewrite Hsn, Hsb, Hfn, Hfb, <- Htext.
  assert (Hall' : consider_all Browser.consider empty_object
                    (entry_lines (text_of (chunks node_response)))
                  = Normal schemas) by exact Hall.
  by rewrite Hall, Hall'.
Qed.

(** What the two files decode of the same bytes, when Node decodes every
    chunk. *)
Lemma decoded_alike (node_download browser_download : Download)
    (node_response browser_response : Response) :
  Decoding.Node_response node_download = Some node_response →
  Decoding.Browser_response browser_download = Some browser_response →
  mjoin (buffers node_download) = mjoin (buffers browser_download) →
  statusCode node_response = status node_download
  ∧ fails node_response = broken node_download
  ∧ statusCode browser_response = status browser_download
  ∧ fails browser_response = broken browser_download
  ∧ text_of (chunks browser_response) = text_of (chunks node_response).
Proof.
  intros Hnode Hbrowser Hbytes.
  destruct (same_bytes_same_text _ _ _ Hnode Hbytes)
    as (browser_response' & Hb & Hs & Hf & Ht).
  rewrite Hbrowser in Hb. injection Hb as <-.
  unfold Decoding.Node_response in Hnode.
  destruct (mapM _ _); [|done]. injection Hnode as <-. done.
Qed.

End SameText.




(** C8 (amended). For every dependency relation whose dependencies lie in a
    finite set, cycles included, [dependencyResolver] terminates: from
    [resolveDeps] it returns within twice the number of coordinates (plus
    two) calls, and the result holds each coordinate reachable from the input
    coordinates, the inputs included, exactly once. Along the calls the
    visited set never loses a coordinate, what is newly enqueued lies outside
    the visited set of the call that enqueues it (not outside the coordinates
    that call has just visited), and the visited set has grown strictly after
    every second call. *)
Theorem resolveDeps_returns_each_reachable_once
    (getPackageDeps : string → list string) (universe : list string)
    (packageCoordinates : list string) (fuel : nat) :
  (∀ c d, d ∈ getPackageDeps c → d ∈ universe) →
  (2 * (length universe + length packageCoordinates) + 2 ≤ fuel)%nat →
  (∃ result,
      resolveDeps getPackageDeps fuel packageCoordinates = Some result
      ∧ NoDup result
      ∧ ∀ c, c ∈ result ↔ Reachable getPackageDeps packageCoordinates c)
  ∧ ∀ visitedDeps enqueuedDeps,
      Called getPackageDeps packageCoordinates visitedDeps enqueuedDeps →
      (∀ c, c ∈ visitedDeps → c ∈ next_visited visitedDeps enqueuedDeps)
      ∧ (∀ c, c ∈ next_enqueued getPackageDeps visitedDeps enqueuedDeps →
              c ∉ visitedDeps)
      ∧ (∀ c, c ∈ next_enqueued getPackageDeps visitedDeps enqueuedDeps →
              c ∈ next_visited (next_visited visitedDeps enqueuedDeps)
                    (next_enqueued getPackageDeps visitedDeps enqueuedDeps)).
Proof.
  intros Hfinite Hfuel. split.
  - apply (dependencyResolver_terminates getPackageDeps universe Hfinite).
    + apply Inv_first.
    + pose proof (rounds_left_first universe packageCoordinates). lia.
  - intros v e _. split_and!.
    + intros c Hc. rewrite elem_of_next_visited. by left.
    + intros c Hc. rewrite elem_of_next_enqueued in Hc. by destruct Hc.
    + intros c Hc. rewrite elem_of_next_visited. by right.
Qed.

(** C8 at work, on a cycle. *)
Lemma resolveDeps_returns_each_reachable_once_witness :
  (∀ c d, d ∈ Fixture.cyclic_deps c → d ∈ [Fixture.core; Fixture.extension])
  ∧ (2 * (length [Fixture.core; Fixture.extension] + length [Fixture.core]) + 2 ≤ 8)%nat
  ∧ ∃ result,
      resolveDeps Fixture.cyclic_deps 8 [Fixture.core] = Some result
      ∧ NoDup result
      ∧ ∀ c, c ∈ result ↔ Reachable Fixture.cyclic_deps [Fixture.core] c.
Proof.
  assert (Hfinite : ∀ c d, d ∈ Fixture.cyclic_deps c
                           → d ∈ [Fixture.core; Fixture.extension]).
  { intros c d. unfold Fixture.cyclic_deps.
    destruct (decide (c = Fixture.core)); [set_solver|].
    destruct (decide (c = Fixture.extension)); set_solver. }
  split; [exact Hfinite|]. split; [simpl; lia|].
  apply (resolveDeps_returns_each_reachable_once Fixture.cyclic_deps
           [Fixture.core; Fixture.extension] [Fixture.core] 8 Hfinite).
  simpl. lia.
Defined.

(** C8, as stated, fails on that cycle: the third call of
    [dependencyResolver] gets the extension package enqueued although it is
    in the visited set already, and the call after it gets the same visited
    set, which has not grown. *)
Lemma enqueued_inside_visited :
  let first_visited := JsSet.new [] in
  let first_enqueued := JsSet.new [Fixture.core] in
  let second_visited := next_visited first_visited first_enqueued in
  let second_enqueued := next_enqueued Fixture.cyclic_deps first_visited first_enqueued in
  let third_visited := next_visited second_visited second_enqueued in
  let third_enqueued := next_enqueued Fixture.cyclic_deps second_visited second_enqueued in
  Called Fixture.cyclic_deps [Fixture.core] third_visited third_enqueued
  ∧ third_visited = [Fixture.core; Fixture.extension]
  ∧ third_enqueued = [Fixture.extension]
  ∧ next_visited third_visited third_enqueued = third_visited
  ∧ resolveDeps Fixture.cyclic_deps 8 [Fixture.core]
    = Some [Fixture.core; Fixture.extension].
Proof.
  cbv zeta. split_and!; [|by vm_compute..].
  apply Called_next; [apply Called_next; [apply Called_first|]|]; by vm_compute.
Qed.

(** ** Objects used as maps *)
Section Objects.
Context `{JsNumber}.

Lemma own_obj_set o name v key :
  key ≠ "__proto__" →
  own (obj_set o name v) !! key
  = if decide (name = key) then Some v else own o !! key.
Proof.
  intros Hkey. unfold obj_set, set_prototype.
  destruct (decide (name = "__proto__")) as [->|Hname].
  - rewrite decide_False by done.
    destruct (_ || _); [cbn [own]; by rewrite lookup_insert_ne|by destruct v].
  - cbn [own]. rewrite lookup_insert. by destruct (decide (name = key)).
Qed.

Lemma own_obj_set_inv o name v key x :
  own (obj_set o name v) !! key = Some x →
  own o !! key = Some x ∨ (x = v ∧ key = name).
Proof.
  unfold obj_set, set_prototype.
  assert (Hins : own {| own := <[name:=v]> (own o); proto := proto o |} !! key = Some x
                 → own o !! key = Some x ∨ x = v ∧ key = name).
  { cbn [own]. rewrite lookup_insert. destruct (decide (name = key)); naive_solver. }
  destruct (decide (name = "__proto__")); [|done].
  destruct (_ || _); [done|]. destruct v; auto.
Qed.

Lemma retained_is_fhir_schema schema :
  retained schema = true ↔ is_fhir_schema schema.
Proof.
  unfold is_fhir_schema, has_elements_object, is_primitive_type. split.
  - destruct schema as [| | | | |members]; simpl; try done.
    intros [He|Hk]%orb_true_iff.
    + left. destruct (member "elements" members) as [[]|] eqn:E; try done.
      eexists _, _. split; [reflexivity|exact E].
    + right. destruct (member "kind" members) as [[]|] eqn:E; try done.
      apply bool_decide_eq_true in Hk as ->.
      eexists. split; [reflexivity|exact E].
  - intros [(members & elements & -> & He)|(members & -> & Hk)]; simpl.
    + by rewrite He.
    + rewrite Hk, bool_decide_eq_true_2 by done. apply orb_true_r.
Qed.

(** The test of the loop, [hasElements || isPrimitive], is [retained]. *)
Lemma retained_test schema elements kind :
  get schema "elements" = Normal elements →
  get schema "kind" = Normal kind →
  ToBoolean elements && typeof_object elements && negb (Array_isArray elements)
  || strict_equals kind "primitive-type"
  = retained schema.
Proof.
  destruct schema as [| | | | |members]; simpl; intros [= <-] [= <-]; try done.
  f_equal.
  - destruct (member "elements" members) as [[]|]; simpl;
      by rewrite ?andb_false_r.
  - by destruct (member "kind" members) as [[]|].
Qed.

End Objects.

(** ** One line considered *)
Section Consider.
Context `{JsonParser}.

Lemma store_Normal schemas schema name v schemas' :
  get schema name = Normal v →
  (if ToBoolean v
   then key ← ToPropertyKey v; mret (obj_set schemas key schema)
   else mret schemas) = Normal schemas' →
  schemas' = match key_of schema name with
             | Some key => obj_set schemas key schema
             | None => schemas
             end.
Proof.
  intros Hget. unfold key_of. rewrite Hget.
  destruct (ToBoolean v); [|by intros [= <-]].
  destruct (ToPropertyKey v); [|done]. by intros [= <-].
Qed.

Lemma consider_Normal schemas line schemas' :
  Node.consider schemas line = Normal schemas' →
  ∃ schema,
    JSON_parse line = Some schema
    ∧ schemas'
      = if retained schema
        then let named := match key_of schema "name" with
                          | Some key => obj_set schemas key schema
                          | None => schemas
                          end in
             match key_of schema "url" with
             | Some key => obj_set named key schema
             | None => named
             end
        else schemas.
Proof.
  unfold Node.consider, parse.
  destruct (JSON_parse line) as [schema|]; [|done]. cbn [mbind Completion_bind].
  intros Hc. exists schema. split; [done|].
  destruct (get schema "elements") as [elements|] eqn:He; [|done].
  destruct (get schema "kind") as [kind|] eqn:Hk; [|done].
  cbn [mbind Completion_bind] in Hc.
  rewrite (retained_test schema elements kind He Hk) in Hc.
  destruct (retained schema); [|by injection Hc as <-].
  destruct (get schema "name") as [name|] eqn:Hn; [|done].
  cbn [mbind Completion_bind] in Hc.
  destruct (if ToBoolean name then _ else _) as [named|] eqn:Hnamed; [|done].
  apply (store_Normal _ _ "name" _ _ Hn) in Hnamed as ->.
  cbn [mbind Completion_bind] in Hc.
  destruct (get schema "url") as [url|] eqn:Hu; [|done].
  cbn [mbind Completion_bind] in Hc.
  destruct (if ToBoolean url then _ else _) as [stored|] eqn:Hstored; [|done].
  apply (store_Normal _ _ "url" _ _ Hu) in Hstored as ->.
  cbn [mbind mret Completion_bind Completion_ret] in Hc. by injection Hc as <-.
Qed.

(** After a line, a key other than [__proto__] holds the schema of the line
    if the line stores it there, and what it held before otherwise. *)
Lemma consider_own schemas line schemas' :
  Node.consider schemas line = Normal schemas' →
  ∃ schema,
    JSON_parse line = Some schema
    ∧ (∀ key, key ≠ "__proto__" →
         own schemas' !! key
         = match stored_at key [schema] with
           | [] => own schemas !! key
           | _ => Some schema
           end)
    ∧ (∀ key v, own schemas' !! key = Some v →
         own schemas !! key = Some v
         ∨ (v = schema ∧ retained schema = true ∧ stored_under schema key)).
Proof.
  intros (schema & Hparse & ->)%consider_Normal. exists schema.
  split; [done|]. split.
  - intros key Hkey. unfold stored_at, stored_under.
    rewrite filter_cons, filter_nil.
    destruct (retained schema); cbv zeta;
      destruct (key_of schema "name") as [kn|], (key_of schema "url") as [ku|];
      rewrite ?own_obj_set by done; repeat case_decide; naive_solver.
  - intros key v. unfold stored_under.
    destruct (retained schema); cbv zeta; [|by left].
    destruct (key_of schema "name") as [kn|], (key_of schema "url") as [ku|];
      intros Hv; repeat (apply own_obj_set_inv in Hv as [Hv|[-> ->]]); naive_solver.
Qed.

End Consider.

(** ** All the lines considered *)
Section ConsiderAll.
Context `{JsonParser}.

Lemma stored_at_cons key schema parsed :
  last (stored_at key (schema :: parsed))
  = match last (stored_at key parsed) with
    | Some s => Some s
    | None => match stored_at key [schema] with [] => None | _ => Some schema end
    end.
Proof.
  unfold stored_at. change (schema :: parsed) with ([schema] ++ parsed).
  rewrite filter_app, last_app. destruct (last (filter _ parsed)); [done|].
  rewrite filter_cons, filter_nil. by case_decide.
Qed.

Lemma consider_all_own lines : ∀ schemas schemas',
  consider_all Node.consider schemas lines = Normal schemas' →
  (∀ key, key ≠ "__proto__" →
     own schemas' !! key
     = match last (stored_at key (omap JSON_parse lines)) with
       | Some schema => Some schema
       | None => own schemas !! key
       end)
  ∧ (∀ key v, own schemas' !! key = Some v →
       own schemas !! key = Some v
       ∨ (v ∈ omap JSON_parse lines ∧ retained v = true ∧ stored_under v key)).
Proof.
  induction lines as [|line lines IH]; intros schemas schemas' Hall.
  - injection Hall as <-. split; [done|]. by left.
  - cbn [consider_all] in Hall.
    destruct (Node.consider schemas line) as [schemas1|] eqn:Hline; [|done].
    cbn [mbind Completion_bind] in Hall.
    destruct (consider_own _ _ _ Hline) as (schema & Hparse & Hown & Hinv).
    destruct (IH _ _ Hall) as [IHown IHinv].
    cbn [omap list_omap]. rewrite Hparse. fold (omap JSON_parse lines). split.
    + intros key Hkey. rewrite stored_at_cons, IHown, Hown by done.
      destruct (last _); [done|]. by destruct (stored_at key [schema]).
    + intros key v Hv. destruct (IHinv key v Hv) as [Hv1|(? & ? & ?)].
      * destruct (Hinv key v Hv1) as [?|(-> & ? & ?)]; [by left|].
        right. split_and!; [left|done..].
      * right. split_and!; [by right|done..].
Qed.

End ConsiderAll.

(** C3 (amended). Every entry of the map that [loadPackageSchemas] returns
    is a parsed line that has an [elements] member that is a non-array
    object, or [kind] equal to "primitive-type", and its key is the key of
    its [name] or of its [url], one that is truthy. A retained schema is
    stored under the key of its [name] when that is truthy and under the key
    of its [url] when that is truthy; a later line that stores a schema under
    the same key replaces it. So each key (other than [__proto__]) holds the
    schema of the last considered line that is stored under it, and a schema
    is resolvable by its name or its URL as long as no later line uses them. *)
Theorem loaded_map_holds_last_stored_schemas `{JsonParser}
    (network : Network) (packageCoordinate : string)
    (response : Response) (schemas : JsObject) :
  network (buildPackageFileUrl packageCoordinate) = Some response →
  ok response = true →
  Node.loadPackageSchemas network packageCoordinate = Resolved schemas
  ∨ Browser.loadPackageSchemas network packageCoordinate = Resolved schemas →
  (∀ key schema, own schemas !! key = Some schema →
     is_fhir_schema schema ∧ stored_under schema key
     ∧ schema ∈ omap JSON_parse (entry_lines (text_of (chunks response))))
  ∧ (∀ key, key ≠ "__proto__" →
       own schemas !! key
       = last (stored_at key
                 (omap JSON_parse (entry_lines (text_of (chunks response)))))).
Proof.
  intros Hnet Hok Hloaded.
  assert (Hall : consider_all Node.consider empty_object
                   (entry_lines (text_of (chunks response))) = Normal schemas).
  { unfold Node.loadPackageSchemas, Browser.loadPackageSchemas in Hloaded.
    rewrite Hnet, Node_load_response, Browser_load_response, Hok in Hloaded.
    cbn [negb] in Hloaded.
    change (consider_all Browser.consider) with (consider_all Node.consider) in Hloaded.
    destruct (consider_all _ _ _) as [loaded|e].
    - destruct Hloaded as [Hl|Hl].
      + destruct (negb _); [done|].
        destruct (fails response); [done|]. by injection Hl as ->.
      + destruct (fails response); [done|]. by injection Hl as ->.
    - destruct Hloaded as [Hl|Hl]; [by destruct (negb _)|done]. }
  destruct (consider_all_own _ _ _ Hall) as [Hown Hinv]. split.
  - intros key schema Hkey.
    destruct (Hinv key schema Hkey) as [Hempty|(? & ?%retained_is_fhir_schema & ?)];
      [|done].
    unfold empty_object in Hempty. cbn [own] in Hempty.
    by rewrite lookup_empty in Hempty.
  - intros key Hkey. rewrite Hown by done. unfold empty_object. cbn [own].
    rewrite lookup_empty. by destruct (last _).
Qed.

(** C3 at work: a package with two profiles named [vitalsigns]. *)
Lemma loaded_map_holds_last_stored_schemas_witness :
  ∃ schemas,
    Fixture.registry Fixture.core (Fixture.serve Fixture.vitalsigns_package)
      (buildPackageFileUrl Fixture.core)
    = Some (Fixture.serve Fixture.vitalsigns_package)
    ∧ ok (Fixture.serve Fixture.vitalsigns_package) = true
    ∧ Node.loadPackageSchemas
        (Fixture.registry Fixture.core (Fixture.serve Fixture.vitalsigns_package))
        Fixture.core
      = Resolved schemas
    ∧ (∀ key schema, own schemas !! key = Some schema →
         is_fhir_schema schema ∧ stored_under schema key
         ∧ schema ∈ omap JSON_parse
                      (entry_lines (text_of (chunks
                         (Fixture.serve Fixture.vitalsigns_package)))))
    ∧ (∀ key, key ≠ "__proto__" →
         own schemas !! key
         = last (stored_at key
                   (omap JSON_parse
                      (entry_lines (text_of (chunks
                         (Fixture.serve Fixture.vitalsigns_package))))))).
Proof.
  eexists. split; [by vm_compute|]. split; [by vm_compute|].
  assert (Hloaded : ∀ schemas,
            Node.loadPackageSchemas
              (Fixture.registry Fixture.core (Fixture.serve Fixture.vitalsigns_package))
              Fixture.core = Resolved schemas →
            Node.loadPackageSchemas
              (Fixture.registry Fixture.core (Fixture.serve Fixture.vitalsigns_package))
              Fixture.core = Resolved schemas
            ∨ Browser.loadPackageSchemas
                (Fixture.registry Fixture.core (Fixture.serve Fixture.vitalsigns_package))
                Fixture.core = Resolved schemas) by (intros; by left).
  split; [by vm_compute|].
  apply (loaded_map_holds_last_stored_schemas
           (Fixture.registry Fixture.core (Fixture.serve Fixture.vitalsigns_package))
           Fixture.core (Fixture.serve Fixture.vitalsigns_package));
    [by vm_compute|by vm_compute|apply Hloaded; by vm_compute].
Defined.

(** C3, as stated, fails: the first profile is retained in the returned map,
    under its URL, and its name is present, yet its name resolves to the
    second profile, which replaced it under that key. *)
Lemma replaced_schema_is_not_resolvable_by_its_name :
  ∃ schemas hl7 local,
    Node.loadPackageSchemas_response empty_object
      (Fixture.serve Fixture.vitalsigns_package) = Resolved schemas
    ∧ Browser.loadPackageSchemas_response empty_object
        (Fixture.serve Fixture.vitalsigns_package) = Resolved schemas
    ∧ JSON_parse Fixture.vitalsigns_hl7 = Some hl7
    ∧ JSON_parse Fixture.vitalsigns_local = Some local
    ∧ own schemas !! "http://hl7.org/fhir/StructureDefinition/vitalsigns" = Some hl7
    ∧ key_of hl7 "name" = Some "vitalsigns"
    ∧ own schemas !! "vitalsigns" = Some local
    ∧ hl7 ≠ local.
Proof.
  eexists _, _, _. split_and!; try by vm_compute.
Qed.

(** ** The merged map and the resolver *)
Section Merge.
Context `{JsonParser}.

(** [Object.assign] on a key other than [__proto__]: the property of the
    source if it has one, the property of the target otherwise. *)
Lemma own_Object_assign (target source : JsObject) key :
  key ≠ "__proto__" →
  own (Object_assign target source) !! key
  = match own source !! key with
    | Some v => Some v
    | None => own target !! key
    end.
Proof.
  intros Hkey. unfold Object_assign.
  apply (map_fold_weak_ind
           (λ (r : JsObject) (m : gmap string json),
              own r !! key = match m !! key with
                             | Some v => Some v
                             | None => own target !! key
                             end)).
  - by rewrite lookup_empty.
  - intros name v m r _ IH. rewrite own_obj_set, lookup_insert by done.
    by destruct (decide (name = key)).
Qed.

(** The packages merged in load order: the last package that has the key
    wins. *)
Lemma own_merged (schemaArrays : list JsObject) : ∀ (allSchemas : JsObject) key,
  key ≠ "__proto__" →
  own (foldl Object_assign allSchemas schemaArrays) !! key
  = match last (omap (λ schemas : JsObject, own schemas !! key) schemaArrays) with
    | Some v => Some v
    | None => own allSchemas !! key
    end.
Proof.
  induction schemaArrays as [|schemas schemaArrays IH]; intros allSchemas key Hkey.
  - done.
  - cbn [foldl omap list_omap]. rewrite IH, own_Object_assign by done.
    fold (omap (λ schemas : JsObject, own schemas !! key) schemaArrays).
    destruct (own schemas !! key) as [v|]; [|done].
    rewrite last_cons. by destruct (last _).
Qed.

(** An own property is what [o[name]] yields. *)
Lemma obj_get_own (o : JsObject) name v :
  own o !! name = Some v → obj_get o name = Value (Json v).
Proof. unfold obj_get. by intros ->. Qed.

(** A name that is no own property and no property of [Object.prototype]
    yields [undefined], as long as [Object.prototype] is the prototype. *)
Lemma obj_get_absent (o : JsObject) name :
  own o !! name = None → proto o = ProtoObjectPrototype →
  name ∉ Object_prototype_names →
  obj_get o name = Value Undefined.
Proof.
  unfold obj_get, Object_prototype_get. intros -> -> Hname.
  rewrite decide_False, bool_decide_eq_false_2; [done|done|].
  intros ->. apply Hname. unfold Object_prototype_names. set_solver.
Qed.

(** What [createContext] resolves with. *)
Lemma createContext_resolved (network : Network) getPackageDeps fuel
    packageCoordinates (ctx : FhirSchemaContext) :
  Node.createContext network getPackageDeps fuel packageCoordinates
  = Some (Resolved ctx) →
  ∃ allPackages schemaArrays,
    resolveDeps getPackageDeps fuel packageCoordinates = Some allPackages
    ∧ Promise_all (Node.loadPackageSchemas network <$> allPackages)
      = Resolved schemaArrays
    ∧ ∀ schemaName,
        schemaResolver ctx schemaName
        = obj_get (foldl Object_assign empty_object schemaArrays) schemaName.
Proof.
  unfold Node.createContext.
  destruct (resolveDeps _ _ _) as [allPackages|] eqn:Hdeps; [|done].
  cbn [mbind option_bind].
  destruct (Promise_all _) as [schemaArrays| | |] eqn:Hall; try done.
  intros [= <-]. by exists allPackages, schemaArrays.
Qed.

(** When several loaded packages have a key other than [__proto__], the
    resolver yields the schema of the package latest in the load order. *)
Lemma schemaResolver_latest_package (network : Network) getPackageDeps fuel
    packageCoordinates (ctx : FhirSchemaContext) :
  Node.createContext network getPackageDeps fuel packageCoordinates
  = Some (Resolved ctx) →
  ∃ schemaArrays, ∀ key schema,
    key ≠ "__proto__" →
    last (omap (λ schemas : JsObject, own schemas !! key) schemaArrays) = Some schema →
    schemaResolver ctx key = Value (Json schema).
Proof.
  intros (allPackages & schemaArrays & _ & _ & Hctx)%createContext_resolved.
  exists schemaArrays. intros key schema Hkey Hlast.
  rewrite Hctx. apply obj_get_own. by rewrite own_merged, Hlast.
Qed.

End Merge.

(** C4: the code at the failing input. The context made from the core
    package resolves "string" to its schema and "Patient", which no package
    defines, to [undefined]; but "constructor", which is no key of the
    loaded map either, resolves to the function [Object.prototype.constructor]:
    [allSchemas] is a plain object and [allSchemas[schemaName]] walks its
    prototype chain. *)
Lemma schemaResolver_yields_inherited_property :
  let network := Fixture.registry Fixture.core Fixture.core_package in
  loaded_under (Node.loadPackageSchemas network Fixture.core) "constructor" = None
  ∧ resolve_with (Node.createContext network Fixture.no_deps 4 [Fixture.core])
      "constructor"
    = Some (ObjectPrototypeMember "constructor")
  ∧ resolve_with (Browser.createContext network Fixture.no_deps 4 [Fixture.core])
      "constructor"
    = Some (ObjectPrototypeMember "constructor")
  ∧ resolve_with (Node.createContext network Fixture.no_deps 4 [Fixture.core])
      "Patient"
    = Some (Value Undefined)
  ∧ resolve_with (Node.createContext network Fixture.no_deps 4 [Fixture.core])
      "string"
    = Value ∘ Json <$> JSON_parse Fixture.string_schema.
Proof. cbv zeta. split_and!; by vm_compute. Qed.


(** C1: the code at the failing input. The tests import
    [validateElementValue] from the core, and the doc comment of
    [ValidationError] names it, but [index.d.ts] declares only
    [enumerateElements] and [validate], each with the signature the
    interface gives. *)
Lemma validateElementValue_is_not_declared :
  Declarations.function_name <$> Declarations.exported_functions
  = ["enumerateElements"; "validate"]
  ∧ Declarations.declaration "validateElementValue" = None
  ∧ "validateElementValue" ∈ Declarations.imported_by_tests
  ∧ "validateElementValue" ∈ Declarations.documented_sources_of_errors
  ∧ Declarations.parameters <$> Declarations.declaration "enumerateElements"
    = Some [("ctx", "FhirSchemaContext"); ("schemaNames", "string[]")]
  ∧ Declarations.parameters <$> Declarations.declaration "validate"
    = Some [("ctx", "FhirSchemaContext"); ("schemaNames", "string[]");
            ("data", "unknown")]
  ∧ Declarations.returns <$> Declarations.declaration "validate"
    = Some "ValidationResult".
Proof. split_and!; try done; set_solver. Qed.

(* ===================================================================== *)
(** * Further properties of the utilities *)
(* ===================================================================== *)

(** ** The URL of a package *)
Section Url.
Import JsString JsStringFacts.

Lemma every_app test a b : every test (a +:+ b) = every test a && every test b.
Proof.
  induction a as [|c a IH]; [done|]. rewrite app_cons. simpl.
  by rewrite IH, andb_assoc.
Qed.

Lemma hex_digit_written n :
  (n < 16)%N → written_by_encodeURIComponent (hex_digit n) = true.
Proof.
  intros Hn. unfold hex_digit.
  assert (n ∈ (N.of_nat <$> seq 0 16)) as Hcases.
  { apply list_elem_of_fmap. exists (N.to_nat n). split; [lia|].
    apply elem_of_seq. lia. }
  cbv [seq fmap list_fmap] in Hcases.
  repeat (apply elem_of_cons in Hcases as [->|Hcases]; [by vm_compute|]).
  by apply elem_of_nil in Hcases.
Qed.

Lemma percent_written byte :
  (byte < 256)%N → every written_by_encodeURIComponent (percent byte) = true.
Proof.
  intros Hbyte. unfold percent. cbn [every].
  rewrite !hex_digit_written; [done| |].
  - apply N.mod_lt. lia.
  - apply N.Div0.div_lt_upper_bound. lia.
Qed.

Lemma N_of_ascii_bound c : (N_of_ascii c < 256)%N.
Proof. destruct c as [[] [] [] [] [] [] [] []]; by vm_compute. Qed.

Lemma encodeURIComponent_written s :
  every written_by_encodeURIComponent (encodeURIComponent s) = true.
Proof.
  induction s as [|ch s IH]; [done|].
  cbn [encodeURIComponent]. cbv zeta. rewrite every_app, IH, andb_true_r.
  pose proof (N_of_ascii_bound ch) as Hch.
  destruct (unreserved (N_of_ascii ch)) eqn:Hu.
  - cbn [every]. unfold written_by_encodeURIComponent. by rewrite Hu.
  - destruct (N.ltb_spec (N_of_ascii ch) 128) as [Hlt|Hge].
    + apply percent_written. lia.
    + rewrite every_app, !percent_written; [done| |].
      * assert (N_of_ascii ch mod 64 < 64)%N by (apply N.mod_lt; lia). lia.
      * assert (N_of_ascii ch / 64 < 4)%N
          by (apply N.Div0.div_lt_upper_bound; lia).
        lia.
Qed.

(** A code unit that fails a test all of a string passes is not found in
    it. *)
Lemma every_indexOf test s c p :
  every test s = true → test c = false →
  indexOf_at (String c "") s p = -1.
Proof.
  intros Hs Hc. revert p Hs. induction s as [|x s IH]; intros p Hs; [done|].
  cbn [indexOf_at starts_with]. cbn [every] in Hs.
  apply andb_true_iff in Hs as [Hx Hs].
  rewrite bool_decide_eq_false_2 by congruence. cbn [andb]. by apply IH.
Qed.

(** The encoding of a code unit, read back. *)
Lemma decoded_head_encoded ch a x :
  decoded_head (encodeURIComponent (String ch a) +:+ x)
  = Some (ch, encodeURIComponent a +:+ x).
Proof.
  cbn [encodeURIComponent]. cbv zeta.
  rewrite app_assoc_string. generalize (encodeURIComponent a +:+ x) as s.
  intros s. destruct ch as [[] [] [] [] [] [] [] []]; by vm_compute.
Qed.

Lemma encodeURIComponent_head ch rest :
  ∃ c s, encodeURIComponent (String ch rest) = String c s
         ∧ written_by_encodeURIComponent c = true.
Proof.
  pose proof (encodeURIComponent_written (String ch rest)) as Hw.
  destruct (encodeURIComponent (String ch rest)) as [|c s] eqn:E.
  - pose proof (decoded_head_encoded ch rest "") as Hd. by rewrite E in Hd.
  - cbn [every] in Hw. apply andb_true_iff in Hw as [Hc _]. by exists c, s.
Qed.

(** Two coordinates with the same encoding, each followed by a string that
    does not begin like an encoding, are the same. *)
Lemma encodeURIComponent_inj a : ∀ b x y,
  (∀ c s, x = String c s → written_by_encodeURIComponent c = false) →
  (∀ c s, y = String c s → written_by_encodeURIComponent c = false) →
  encodeURIComponent a +:+ x = encodeURIComponent b +:+ y → a = b.
Proof.
  induction a as [|ch a IH]; intros [|ch' b] x y Hx Hy Heq.
  - done.
  - exfalso. destruct (encodeURIComponent_head ch' b) as (c & s & E & Hc).
    rewrite E in Heq. cbn [encodeURIComponent] in Heq.
    rewrite app_nil, app_cons in Heq. rewrite (Hx _ _ Heq) in Hc. done.
  - exfalso. destruct (encodeURIComponent_head ch a) as (c & s & E & Hc).
    rewrite E in Heq. cbn [encodeURIComponent] in Heq.
    rewrite app_nil, app_cons in Heq. symmetry in Heq.
    rewrite (Hy _ _ Heq) in Hc. done.
  - pose proof (decoded_head_encoded ch a x) as Hhead.
    rewrite Heq, decoded_head_encoded in Hhead.
    injection Hhead as -> Htail. f_equal. eapply IH; [exact Hx|exact Hy|done].
Qed.

Lemma app_inv_head_string p a b : p +:+ a = p +:+ b → a = b.
Proof.
  induction p as [|c p IH]; [done|]. rewrite !app_cons. intros [= ?]. auto.
Qed.

End Url.

(** X1. The URL of a package is the registry URL, one path segment and
    [/package.ndjson.gz]: whatever the coordinate holds, the segment written
    for it consists of unreserved characters and percent escapes, so it has
    no [/], no [?] and no [#] that would change the path, start a query or
    start a fragment. *)
Theorem buildPackageFileUrl_has_one_segment (packageCoordinate : string) :
  ∃ segment,
    buildPackageFileUrl packageCoordinate
    = packageRegistryUrl +:+ segment +:+ "/package.ndjson.gz"
    ∧ every written_by_encodeURIComponent segment = true
    ∧ JsString.includes segment "/" = false
    ∧ JsString.includes segment "?" = false
    ∧ JsString.includes segment "#" = false.
Proof.
  exists (encodeURIComponent packageCoordinate).
  pose proof (encodeURIComponent_written packageCoordinate) as Hw.
  unfold JsString.includes, JsString.indexOf.
  split_and!; [done|done|..];
    by rewrite (every_indexOf written_by_encodeURIComponent).
Qed.

(** X2. No two package coordinates share a URL: [buildPackageFileUrl] maps
    different coordinates to different URLs. *)
Theorem distinct_coordinates_have_distinct_urls (a b : string) :
  a ≠ b → buildPackageFileUrl a ≠ buildPackageFileUrl b.
Proof.
  intros Hne Heq. apply Hne. unfold buildPackageFileUrl in Heq.
  apply app_inv_head_string in Heq.
  apply (encodeURIComponent_inj a b _ _) in Heq; [done|..];
    by intros c s [= <- _].
Qed.

(** X2 at work: the core package and the extensions package. *)
Lemma distinct_coordinates_have_distinct_urls_witness :
  Fixture.core ≠ Fixture.extension
  ∧ buildPackageFileUrl Fixture.core ≠ buildPackageFileUrl Fixture.extension.
Proof.
  assert (Fixture.core ≠ Fixture.extension) as Hne by (by vm_compute).
  split; [exact Hne|].
  exact (distinct_coordinates_have_distinct_urls Fixture.core Fixture.extension Hne).
Defined.

(** ** The lines that the loop hands out *)
Section Reassemble.
Import JsString JsStringFacts.

Lemma split_lines_reassemble text :
  text = foldr (λ line text, line +:+ LF +:+ text) (unterminated_rest text)
           (terminated_lines text).
Proof.
  unfold terminated_lines, unterminated_rest.
  induction text as [|c text IH]; [done|].
  simpl. destruct (split_lines text) as [lines rest]. simpl in IH.
  destruct (decide (c = "010"%char)) as [->|Hc].
  - simpl. by rewrite <- IH.
  - destruct lines as [|line lines]; simpl in *.
    + by rewrite <- IH.
    + rewrite app_cons. by rewrite <- IH.
Qed.

(** A string that has a line feed has a line. *)
Lemma split_lines_LF line rest :
  split_lines (line +:+ String "010" rest) ≠ ([], line +:+ String "010" rest).
Proof.
  induction line as [|x line IH].
  - rewrite app_nil. simpl. by destruct (split_lines rest).
  - rewrite app_cons. simpl.
    destruct (split_lines (line +:+ String "010" rest)) as [lines r].
    destruct (decide _); [done|]. destruct lines; [|done].
    intros [= Hr]. apply IH. by rewrite Hr.
Qed.

Lemma indexOf_LF_cons c s :
  c ≠ "010"%char → indexOf_at LF s 0 = -1 → indexOf_at LF (String c s) 0 = -1.
Proof.
  intros Hc Hs. cbn [indexOf_at]. rewrite starts_with_LF.
  rewrite bool_decide_eq_false_2 by done.
  destruct (indexOf_at_LF s (0 + 1)) as [[-> _]|(line & rest & _ & -> & _)];
    [done|].
  destruct (indexOf_at_LF (line +:+ String "010" rest) 0)
    as [[_ Hs']|(line' & rest' & Hi & _)]; [|lia].
  by destruct (split_lines_LF line rest).
Qed.

Lemma no_LF_in_lines text :
  Forall (λ line, indexOf line LF = -1) (terminated_lines text)
  ∧ indexOf (unterminated_rest text) LF = -1.
Proof.
  unfold terminated_lines, unterminated_rest, indexOf.
  induction text as [|c text IH]; [by split|].
  simpl. destruct (split_lines text) as [lines rest]. simpl in IH.
  destruct IH as [IHl IHr].
  destruct (decide (c = "010"%char)) as [->|Hc]; simpl.
  - split; [|done]. by constructor.
  - destruct lines as [|line lines]; simpl.
    + split; [done|]. by apply indexOf_LF_cons.
    + split; [|done]. inversion_clear IHl.
      constructor; [|done]. by apply indexOf_LF_cons.
Qed.

End Reassemble.

(** X3. The loop that reads a stream loses nothing and invents nothing: run
    with a body that only records its lines, it ends with the lines recorded
    and a buffer such that the lines, each followed by a line feed, and then
    the buffer spell the text of the stream; no line and no final buffer
    holds a line feed. The chunk boundaries play no part. *)
Theorem read_chunks_hands_out_the_lines (chunks : list string) :
  ∃ lines buffer,
    read_chunks (R := Empty_set) (λ line seen, Continue (seen ++ [line]))
      chunks ("", []) = Continue (buffer, lines)
    ∧ text_of chunks
      = foldr (λ line text, line +:+ JsString.LF +:+ text) buffer lines
    ∧ Forall (λ line, JsString.indexOf line JsString.LF = -1) lines
    ∧ JsString.indexOf buffer JsString.LF = -1.
Proof.
  exists (terminated_lines (text_of chunks)), (unterminated_rest (text_of chunks)).
  split_and!.
  - rewrite read_chunks_text.
    assert (Hrec : ∀ lines seen,
              over_lines (R := Empty_set) (λ line seen, Continue (seen ++ [line]))
                lines seen = Continue (seen ++ lines)).
    { induction lines as [|line lines IH]; intros seen; simpl.
      - by rewrite app_nil_r.
      - by rewrite IH, <- app_assoc. }
    by rewrite Hrec.
  - apply split_lines_reassemble.
  - apply no_LF_in_lines.
  - apply no_LF_in_lines.
Qed.

(** ** [getSpecificLineFromNdjson] *)
Section SpecificLine.
Context `{JsonParser}.

Lemma Browser_target_line targetLine lines currentLine :
  currentLine < targetLine →
  over_lines (Browser.getSpecificLineFromNdjson_line targetLine) lines currentLine
  = match lines !! Z.to_nat (targetLine - currentLine - 1) with
    | Some line =>
        match parse line with
        | Normal parsedLine => Return (Json parsedLine)
        | Throw e => Throws e
        end
    | None => Continue (currentLine + Z.of_nat (length lines))
    end.
Proof.
  revert currentLine. induction lines as [|line lines IH]; intros currentLine Hlt.
  - simpl. f_equal. lia.
  - cbn [over_lines]. unfold Browser.getSpecificLineFromNdjson_line at 1.
    destruct (Z.eqb_spec (currentLine + 1) targetLine) as [Heq|Hne].
    + replace (Z.to_nat (targetLine - currentLine - 1)) with 0%nat by lia.
      simpl. by destruct (parse line).
    + rewrite IH by lia.
      replace (Z.to_nat (targetLine - currentLine - 1))
        with (S (Z.to_nat (targetLine - (currentLine + 1) - 1))) by lia.
      cbn [lookup list_lookup length].
      destruct (lines !! _); [done|]. f_equal. lia.
Qed.

Lemma Node_target_line targetLine lines currentLine :
  currentLine < targetLine →
  over_lines (Node.getSpecificLineFromNdjson_line targetLine) lines currentLine
  = match lines !! Z.to_nat (targetLine - currentLine - 1) with
    | Some line =>
        match parse line with
        | Normal parsedLine => Return (Resolved (Json parsedLine))
        | Throw e => Return Rejected
        end
    | None => Continue (currentLine + Z.of_nat (length lines))
    end.
Proof.
  revert currentLine. induction lines as [|line lines IH]; intros currentLine Hlt.
  - simpl. f_equal. lia.
  - cbn [over_lines]. unfold Node.getSpecificLineFromNdjson_line at 1.
    destruct (Z.eqb_spec (currentLine + 1) targetLine) as [Heq|Hne].
    + replace (Z.to_nat (targetLine - currentLine - 1)) with 0%nat by lia.
      simpl. by destruct (parse line).
    + rewrite IH by lia.
      replace (Z.to_nat (targetLine - currentLine - 1))
        with (S (Z.to_nat (targetLine - (currentLine + 1) - 1))) by lia.
      cbn [lookup list_lookup length].
      destruct (lines !! _); [done|]. f_equal. lia.
Qed.

(** Past its target the loop only counts. *)
Lemma Browser_passed_target targetLine lines currentLine :
  targetLine ≤ currentLine →
  over_lines (Browser.getSpecificLineFromNdjson_line targetLine) lines currentLine
  = Continue (currentLine + Z.of_nat (length lines)).
Proof.
  revert currentLine. induction lines as [|line lines IH]; intros currentLine Hle.
  - simpl. f_equal. lia.
  - cbn [over_lines]. unfold Browser.getSpecificLineFromNdjson_line at 1.
    destruct (Z.eqb_spec (currentLine + 1) targetLine) as [?|_]; [lia|].
    rewrite IH by lia. f_equal. cbn [length]. lia.
Qed.

Lemma Node_passed_target targetLine lines currentLine :
  targetLine ≤ currentLine →
  over_lines (Node.getSpecificLineFromNdjson_line targetLine) lines currentLine
  = Continue (currentLine + Z.of_nat (length lines)).
Proof.
  revert currentLine. induction lines as [|line lines IH]; intros currentLine Hle.
  - simpl. f_equal. lia.
  - cbn [over_lines]. unfold Node.getSpecificLineFromNdjson_line at 1.
    destruct (Z.eqb_spec (currentLine + 1) targetLine) as [?|_]; [lia|].
    rewrite IH by lia. f_equal. cbn [length]. lia.
Qed.

Lemma Browser_line_response targetLine response :
  Browser.getSpecificLineFromNdjson_response targetLine response
  = Resolved
      (if ok response then
         match nth_line (text_of (chunks response)) targetLine with
         | Some line =>
             match JSON_parse line with
             | Some parsedLine => Json parsedLine
             | None => null
             end
         | None => null
         end
       else null).
Proof.
  unfold Browser.getSpecificLineFromNdjson_response, nth_line.
  destruct (ok response); [|done]. cbn [negb].
  rewrite read_chunks_text.
  destruct (Z.leb_spec 1 targetLine) as [Hle|Hgt].
  - rewrite Browser_target_line by lia.
    replace (targetLine - 0 - 1) with (targetLine - 1) by lia.
    destruct (_ !! _) as [line|]; [|done].
    unfold parse. by destruct (JSON_parse line).
  - by rewrite Browser_passed_target by lia.
Qed.

Lemma Node_line_response targetLine response :
  Node.getSpecificLineFromNdjson_response targetLine response
  = if negb (statusCode response =? 200) then Resolved null
    else match nth_line (text_of (chunks response)) targetLine with
         | Some line =>
             match JSON_parse line with
             | Some parsedLine => Resolved (Json parsedLine)
             | None => Rejected
             end
         | None =>
             if fails response || (1 <=? targetLine) then Rejected else Pending
         end.
Proof.
  unfold Node.getSpecificLineFromNdjson_response, nth_line.
  destruct (negb _); [done|].
  rewrite read_chunks_text.
  destruct (Z.leb_spec 1 targetLine) as [Hle|Hgt].
  - rewrite Node_target_line by lia.
    replace (targetLine - 0 - 1) with (targetLine - 1) by lia.
    destruct (_ !! _) as [line|] eqn:Hline.
    + unfold parse. by destruct (JSON_parse line).
    + cbn [flow_then]. rewrite orb_true_r.
      destruct (fails response); [done|].
      apply lookup_ge_None in Hline.
      destruct (Z.ltb_spec
                  (0 + Z.of_nat (length (terminated_lines (text_of (chunks response)))))
                  targetLine); [done|lia].
  - rewrite Node_passed_target by lia. cbn [flow_then]. rewrite orb_false_r.
    destruct (fails response); [done|].
    destruct (Z.ltb_spec
                (0 + Z.of_nat (length (terminated_lines (text_of (chunks response)))))
                targetLine); [lia|done].
Qed.

End SpecificLine.

(** X4. The browser [getSpecificLineFromNdjson] never rejects. It resolves
    with the parsed target line when the response is OK, the text of the
    stream has that many lines ended by a line feed, and the target line is
    JSON; in every other case (failed request, status outside 200-299, too
    few lines, a target below 1, a line that is not JSON, a stream that
    fails) it resolves with [null]. How the stream is cut into chunks does
    not matter. *)
Theorem Browser_getSpecificLineFromNdjson_parses_target_line `{JsonParser}
    (fetch : Network) (url : string) (targetLine : Z) :
  Browser.getSpecificLineFromNdjson fetch url targetLine
  = Resolved
      match fetch url with
      | Some response =>
          if ok response then
            match nth_line (text_of (chunks response)) targetLine with
            | Some line =>
                match JSON_parse line with
                | Some parsedLine => Json parsedLine
                | None => null
                end
            | None => null
            end
          else null
      | None => null
      end.
Proof.
  unfold Browser.getSpecificLineFromNdjson.
  destruct (fetch url) as [response|]; [|done]. apply Browser_line_response.
Qed.

(** X5. The Node [getSpecificLineFromNdjson] resolves with [null] when the
    request fails or the status is not 200. On a status 200 it resolves with
    the parsed target line, rejects when that line is not JSON, and rejects
    when the stream has fewer lines than a target of 1 or more. For a target
    below 1 its promise is rejected only if the stream fails: when the
    stream ends, the ["end"] listener finds [currentLine < targetLine] false
    and the promise is never settled. *)
Theorem Node_getSpecificLineFromNdjson_settles `{JsonParser}
    (https_get : Network) (url : string) (targetLine : Z) :
  Node.getSpecificLineFromNdjson https_get url targetLine
  = match https_get url with
    | None => Resolved null
    | Some response =>
        if negb (statusCode response =? 200) then Resolved null
        else match nth_line (text_of (chunks response)) targetLine with
             | Some line =>
                 match JSON_parse line with
                 | Some parsedLine => Resolved (Json parsedLine)
                 | None => Rejected
                 end
             | None =>
                 if fails response || (1 <=? targetLine) then Rejected else Pending
             end
    end.
Proof.
  unfold Node.getSpecificLineFromNdjson.
  destruct (https_get url) as [response|]; [|done]. apply Node_line_response.
Qed.

Section SameTextLine.
Context `{JsonParser}.

(** On responses with the same status and text, the browser function
    resolves with what the Node function resolves with. *)
Lemma same_text_same_line (https_get fetch : Network) (url : string)
    (targetLine : Z) (node_response browser_response : Response) :
  https_get url = Some node_response →
  fetch url = Some browser_response →
  statusCode browser_response = statusCode node_response →
  text_of (chunks browser_response) = text_of (chunks node_response) →
  statusCode node_response = 200 ∨ ok node_response = false →
  Browser.getSpecificLineFromNdjson fetch url targetLine
  = Resolved match Node.getSpecificLineFromNdjson https_get url targetLine with
             | Resolved parsedLine => parsedLine
             | _ => null
             end.
Proof.
  intros Hnode Hbrowser Hstatus Htext Hok.
  unfold Node.getSpecificLineFromNdjson, Browser.getSpecificLineFromNdjson.
  rewrite Hnode, Hbrowser, Node_line_response, Browser_line_response.
  unfold ok in *. rewrite Hstatus, Htext.
  destruct (Z.eqb_spec (statusCode node_response) 200) as [H200|Hne]; cbn [negb].
  - rewrite H200.
    cbn [Z.leb Z.compare Pos.compare Pos.compare_cont andb].
    destruct (nth_line _ _) as [line|].
    + by destruct (JSON_parse line).
    + by destruct (_ || _).
  - destruct Hok as [?|Hok]; [done|]. by rewrite Hok.
Qed.

End SameTextLine.

(** X6. When the two files receive the same decompressed bytes with the
    same status, every chunk that Node receives decodes on its own to text,
    and the status is 200 or the response is not OK, the browser
    [getSpecificLineFromNdjson] resolves with what the Node one resolves
    with, and with [null] where the Node one rejects or never settles,
    however the bytes are cut into chunks for the browser. *)
Theorem browser_resolves_where_Node_settles `{JsonParser}
    (https_get fetch : Network) (url : string) (targetLine : Z)
    (node_download browser_download : Download)
    (node_response browser_response : Response) :
  Decoding.Node_response node_download = Some node_response →
  Decoding.Browser_response browser_download = Some browser_response →
  https_get url = Some node_response →
  fetch url = Some browser_response →
  mjoin (buffers node_download) = mjoin (buffers browser_download) →
  status browser_download = status node_download →
  status node_download = 200 ∨ ok node_response = false →
  Browser.getSpecificLineFromNdjson fetch url targetLine
  = Resolved match Node.getSpecificLineFromNdjson https_get url targetLine with
             | Resolved parsedLine => parsedLine
             | _ => null
             end.
Proof.
  intros Hnd Hbd Hnode Hbrowser Hbytes Hstatus Hok.
  destruct (decoded_alike _ _ _ _ Hnd Hbd Hbytes) as (Hs & Hf & Hs' & Hf' & Ht).
  apply (same_text_same_line https_get fetch url targetLine
           node_response browser_response); [done|done|congruence|done|].
  destruct Hok as [Hok|Hok]; [left; congruence|by right].
Qed.

(** X6 at work: the third line of the package with the schema [café], in
    one chunk for Node and cut inside [é] for the browser. *)
Lemma browser_resolves_where_Node_settles_witness :
  Browser.getSpecificLineFromNdjson
    (Fixture.registry Fixture.core (Fixture.Browser_decoded Fixture.cafe_cut))
    (buildPackageFileUrl Fixture.core) 3
  = Resolved match Node.getSpecificLineFromNdjson
                     (Fixture.registry Fixture.core
                        (Fixture.Node_decoded Fixture.cafe_whole))
                     (buildPackageFileUrl Fixture.core) 3 with
             | Resolved parsedLine => parsedLine
             | _ => null
             end
  ∧ is_Some (JSON_parse (Fixture.q "{'name':'caf" +:+ String "233"
                           (Fixture.q "','kind':'primitive-type'}")))
  ∧ Node.getSpecificLineFromNdjson
      (Fixture.registry Fixture.core (Fixture.Node_decoded Fixture.cafe_whole))
      (buildPackageFileUrl Fixture.core) 3
    = Resolved (Json (Fixture.parsed
                        (Fixture.q "{'name':'caf" +:+ String "233"
                           (Fixture.q "','kind':'primitive-type'}")))).
Proof.
  split; [|split; [eexists; by vm_compute|by vm_compute]].
  apply (browser_resolves_where_Node_settles
           (Fixture.registry Fixture.core (Fixture.Node_decoded Fixture.cafe_whole))
           (Fixture.registry Fixture.core (Fixture.Browser_decoded Fixture.cafe_cut))
           (buildPackageFileUrl Fixture.core) 3
           Fixture.cafe_whole Fixture.cafe_cut
           (Fixture.Node_decoded Fixture.cafe_whole)
           (Fixture.Browser_decoded Fixture.cafe_cut));
    [by vm_compute..|].
  left. by vm_compute.
Defined.

(** The same bytes need not give the two files the same text: the decoder
    of the browser removes a byte order mark and puts together a character
    that is cut between two chunks, where Node decodes to other code units
    (U+FEFF, U+FFFD), which the strings here do not hold. *)
Lemma same_bytes_decoded_apart :
  Decoding.Node_response Fixture.cafe_cut = None
  ∧ Decoding.Node_response Fixture.cafe_marked = None
  ∧ text_of (chunks (Fixture.Browser_decoded Fixture.cafe_cut))
    = Fixture.cafe_package
  ∧ text_of (chunks (Fixture.Browser_decoded Fixture.cafe_marked))
    = Fixture.cafe_package
  ∧ text_of (chunks (Fixture.Node_decoded Fixture.cafe_whole))
    = Fixture.cafe_package
  ∧ is_Some (Decoding.Browser_response Fixture.cafe_cut)
  ∧ is_Some (Decoding.Browser_response Fixture.cafe_marked).
Proof. split_and!; try (by vm_compute); eexists; by vm_compute. Qed.

(** ** [normalizePackageDeps] and [getPackageDeps] *)
Section PackageDepsFacts.
Context `{JsNumber}.

Lemma slice_from_1 c d : JsString.slice_from (String c d) 1 = d.
Proof. apply (JsStringFacts.slice_after "" c d). Qed.

Lemma mapM_slice_1_strings (packageDeps : list string) :
  mapM PackageDeps.slice_1 (JString <$> packageDeps)
  = Normal (JString <$> ((λ d, JsString.slice_from d 1) <$> packageDeps)).
Proof.
  induction packageDeps as [|d packageDeps IH]; [done|].
  cbn [fmap list_fmap mapM PackageDeps.slice_1 mbind Completion_bind].
  fold (JString (Num := Number) <$> packageDeps). by rewrite IH.
Qed.

End PackageDepsFacts.

(** X7. [normalizePackageDeps] turns an array of strings into an array of
    as many strings, each without its first character (the colon of a
    dependency written [":name#version"]); an empty string stays empty. For
    [undefined] and for [null] it gives the empty array. *)
Theorem normalizePackageDeps_drops_first_characters `{JsNumber}
    (packageDeps : list string) :
  PackageDeps.normalizePackageDeps (Json (JArray (JString <$> packageDeps)))
  = Normal (JString <$> ((λ d, JsString.slice_from d 1) <$> packageDeps))
  ∧ (∀ c d, JsString.slice_from (String c d) 1 = d)
  ∧ JsString.slice_from "" 1 = ""
  ∧ PackageDeps.normalizePackageDeps Undefined = Normal []
  ∧ PackageDeps.normalizePackageDeps null = Normal [].
Proof.
  split_and!; [|apply slice_from_1|done..].
  unfold PackageDeps.normalizePackageDeps. cbn [ToBoolean].
  apply mapM_slice_1_strings.
Qed.

(** X8. When the status is 200 and the first line of the package text is a
    JSON object whose [dependencies] is an array of strings, [getPackageDeps]
    resolves, in both files, with those strings without their first
    characters, whatever follows the first line and however the stream is
    cut into chunks. *)
Theorem getPackageDeps_reads_the_first_line `{JsonParser}
    (network : Network) (packageCoordinate : string) (response : Response)
    (line : string) (members : list (string * json)) (packageDeps : list string) :
  network (buildPackageFileUrl packageCoordinate) = Some response →
  statusCode response = 200 →
  nth_line (text_of (chunks response)) 1 = Some line →
  JSON_parse line = Some (JObject members) →
  member "dependencies" members = Some (JArray (JString <$> packageDeps)) →
  PackageDeps.getPackageDeps (Node.getPackageMeta network) packageCoordinate
  = Resolved (JString <$> ((λ d, JsString.slice_from d 1) <$> packageDeps))
  ∧ PackageDeps.getPackageDeps (Browser.getPackageMeta network) packageCoordinate
    = Resolved (JString <$> ((λ d, JsString.slice_from d 1) <$> packageDeps)).
Proof.
  intros Hnet Hstatus Hline Hparse Hdeps.
  unfold PackageDeps.getPackageDeps, Node.getPackageMeta, Browser.getPackageMeta,
    Node.getSpecificLineFromNdjson, Browser.getSpecificLineFromNdjson.
  rewrite Hnet, Node_line_response, Browser_line_response.
  unfold ok. rewrite Hstatus, Hline, Hparse.
  cbn [Z.eqb Pos.eqb Z.leb Z.compare Pos.compare Pos.compare_cont negb andb
       ToBoolean PackageDeps.dependencies get].
  rewrite Hdeps. cbn [mbind Completion_bind].
  unfold PackageDeps.normalizePackageDeps. cbn [ToBoolean].
  by rewrite mapM_slice_1_strings.
Qed.

(** X8 at work: the guide depends on the core package. *)
Lemma getPackageDeps_reads_the_first_line_witness :
  PackageDeps.getPackageDeps (Node.getPackageMeta Fixture.guide_registry)
    Fixture.guide
  = Resolved [JString Fixture.core]
  ∧ PackageDeps.getPackageDeps (Browser.getPackageMeta Fixture.guide_registry)
      Fixture.guide
    = Resolved [JString Fixture.core].
Proof.
  apply (getPackageDeps_reads_the_first_line Fixture.guide_registry Fixture.guide
           Fixture.guide_package Fixture.guide_metadata
           [("name", JString "example.guide");
            ("dependencies", JArray [JString ":hl7.fhir.r4.core#4.0.1"])]
           [":hl7.fhir.r4.core#4.0.1"]); by vm_compute.
Defined.

(** X9. A package without metadata has no dependencies in the browser and
    an error in Node: when the response is not OK, or when the status is 200
    and the text has no first line ended by a line feed or a first line that
    is not JSON, the browser [getPackageDeps] resolves with the empty array;
    the Node one does so only when the status is not 200, and rejects on a
    status 200. *)
Theorem getPackageDeps_without_metadata `{JsonParser}
    (network : Network) (packageCoordinate : string) (response : Response) :
  network (buildPackageFileUrl packageCoordinate) = Some response →
  ok response = false
  ∨ (statusCode response = 200
     ∧ ∀ line, nth_line (text_of (chunks response)) 1 = Some line →
               JSON_parse line = None) →
  PackageDeps.getPackageDeps (Browser.getPackageMeta network) packageCoordinate
  = Resolved []
  ∧ PackageDeps.getPackageDeps (Node.getPackageMeta network) packageCoordinate
    = if statusCode response =? 200 then Rejected else Resolved [].
Proof.
  intros Hnet Hmeta.
  unfold PackageDeps.getPackageDeps, Node.getPackageMeta, Browser.getPackageMeta,
    Node.getSpecificLineFromNdjson, Browser.getSpecificLineFromNdjson.
  rewrite Hnet, Node_line_response, Browser_line_response.
  destruct Hmeta as [Hok|[Hstatus Hline]].
  - rewrite Hok. split; [done|]. unfold ok in Hok.
    destruct (Z.eqb_spec (statusCode response) 200) as [E|_]; [|done].
    by rewrite E in Hok.
  - unfold ok. rewrite Hstatus.
    cbn [Z.eqb Pos.eqb Z.leb Z.compare Pos.compare Pos.compare_cont negb andb].
    destruct (nth_line _ 1) as [line|].
    + by rewrite (Hline line eq_refl).
    + by rewrite orb_true_r.
Qed.

(** X9 at work: a package file that is empty. *)
Lemma getPackageDeps_without_metadata_witness :
  PackageDeps.getPackageDeps
    (Browser.getPackageMeta (Fixture.registry Fixture.core (Fixture.serve "")))
    Fixture.core
  = Resolved []
  ∧ PackageDeps.getPackageDeps
      (Node.getPackageMeta (Fixture.registry Fixture.core (Fixture.serve "")))
      Fixture.core
    = Rejected.
Proof.
  apply (getPackageDeps_without_metadata
           (Fixture.registry Fixture.core (Fixture.serve "")) Fixture.core
           (Fixture.serve "")); [by vm_compute|].
  right. split; [done|]. intros line Hline. by vm_compute in Hline.
Defined.

(** ** The order of the resolved coordinates *)
Section ResolverOrder.
Import JsSet JsSetFacts.
Variable getPackageDeps : string → list string.

Lemma foldl_add_app s l : ∃ rest, foldl add s l = s ++ rest.
Proof.
  revert s. induction l as [|x l IH]; intros s; simpl.
  - exists []. by rewrite app_nil_r.
  - destruct (IH (add s x)) as [rest ->]. unfold add.
    destruct (has s x); [by eexists|]. exists ([x] ++ rest). by rewrite app_assoc.
Qed.

Lemma foldl_add_NoDup s l : NoDup (s ++ l) → foldl add s l = s ++ l.
Proof.
  revert s. induction l as [|x l IH]; intros s Hnd; simpl.
  - by rewrite app_nil_r.
  - assert (has s x = false) as Hx.
    { apply not_true_is_false. rewrite has_true. intros Hx.
      apply NoDup_app in Hnd as (_ & Hnd & _). apply (Hnd x Hx). left. }
    unfold add at 2. rewrite Hx.
    rewrite IH; rewrite <- app_assoc; done.
Qed.

Lemma foldl_add_subseteq s l : (∀ x, x ∈ l → x ∈ s) → foldl add s l = s.
Proof.
  induction l as [|x l IH]; intros Hl; simpl; [done|].
  unfold add at 2. rewrite (proj2 (has_true s x)) by (apply Hl; left).
  apply IH. intros y Hy. apply Hl. by right.
Qed.

(** [new Set] of a list without repetition is that list. *)
Lemma new_NoDup l : NoDup l → new l = l.
Proof. intros Hl. unfold new. by rewrite foldl_add_NoDup. Qed.

Lemma next_visited_app v e : NoDup v → ∃ rest, next_visited v e = v ++ rest.
Proof.
  intros Hv. unfold next_visited, new. rewrite foldl_app.
  fold (new v). rewrite new_NoDup by done. apply foldl_add_app.
Qed.

Lemma next_visited_subseteq v e :
  NoDup v → (∀ x, x ∈ e → x ∈ v) → next_visited v e = v.
Proof.
  intros Hv He. unfold next_visited, new. rewrite foldl_app.
  fold (new v). rewrite new_NoDup by done. by apply foldl_add_subseteq.
Qed.

(** The visited coordinates stay where they are: the result begins with
    them. *)
Lemma dependencyResolver_extends fuel v e result :
  NoDup v →
  dependencyResolver getPackageDeps fuel v e = Some result →
  ∃ rest, result = v ++ rest.
Proof.
  revert v e. induction fuel as [|fuel IH]; intros v e Hv; [done|].
  simpl. destruct (size e =? 0).
  - intros [= <-]. exists []. by rewrite app_nil_r.
  - intros Hrun. apply IH in Hrun as [rest ->]; [|apply NoDup_new].
    destruct (next_visited_app v e Hv) as [rest' ->].
    exists (rest' ++ rest). by rewrite app_assoc.
Qed.

Lemma resolveDeps_extends fuel packageCoordinates result :
  resolveDeps getPackageDeps fuel packageCoordinates = Some result →
  ∃ rest, result = new packageCoordinates ++ rest.
Proof.
  intros Hrun. unfold resolveDeps in Hrun. destruct fuel as [|fuel]; [done|].
  simpl in Hrun.
  destruct (Z.eqb_spec (size (new packageCoordinates)) 0) as [He|He].
  - apply size_0 in He. rewrite He. injection Hrun as <-. by exists [].
  - apply dependencyResolver_extends in Hrun; [|apply NoDup_new].
    assert (next_visited (new []) (new packageCoordinates)
            = new packageCoordinates) as Hfirst.
    { unfold next_visited. change (new [] ++ ?l) with l.
      apply new_NoDup, NoDup_new. }
    by rewrite Hfirst in Hrun.
Qed.

(** What holds of the calls holds of the result. *)
Lemma dependencyResolver_Inv packageCoordinates fuel v e result :
  Inv getPackageDeps packageCoordinates v e →
  dependencyResolver getPackageDeps fuel v e = Some result →
  Inv getPackageDeps packageCoordinates result [].
Proof.
  revert v e. induction fuel as [|fuel IH]; intros v e HI; [done|].
  simpl. destruct (Z.eqb_spec (size e) 0) as [He|He].
  - apply size_0 in He as ->. by intros [= <-].
  - apply IH. by apply Inv_next.
Qed.

Lemma nil_no_elem {A} (l : list A) : (∀ x, x ∉ l) → l = [].
Proof. destruct l as [|x l]; [done|]. intros Hl. destruct (Hl x). left. Qed.

End ResolverOrder.

(** X10. [resolveDeps] lists the input coordinates first, in the order of
    their first occurrence, and what they depend on after them. *)
Theorem resolveDeps_lists_the_inputs_first
    (getPackageDeps : string → list string) (fuel : nat)
    (packageCoordinates result : list string) :
  resolveDeps getPackageDeps fuel packageCoordinates = Some result →
  (∃ rest, result = JsSet.new packageCoordinates ++ rest)
  ∧ (NoDup packageCoordinates → JsSet.new packageCoordinates = packageCoordinates).
Proof.
  intros Hrun. split; [by eapply resolveDeps_extends|apply new_NoDup].
Qed.

(** X10 at work: the guide, then the core package it depends on. *)
Lemma resolveDeps_lists_the_inputs_first_witness :
  resolveDeps Fixture.guide_deps 8 [Fixture.guide]
  = Some [Fixture.guide; Fixture.core]
  ∧ (∃ rest, [Fixture.guide; Fixture.core] = JsSet.new [Fixture.guide] ++ rest)
  ∧ (NoDup [Fixture.guide] → JsSet.new [Fixture.guide] = [Fixture.guide]).
Proof.
  split; [by vm_compute|].
  apply (resolveDeps_lists_the_inputs_first Fixture.guide_deps 8
           [Fixture.guide] [Fixture.guide; Fixture.core]).
  by vm_compute.
Defined.

(** X11. What [resolveDeps] returns is closed under dependencies, so
    resolving it again changes nothing: [resolveDeps] of its own result
    returns that result, in the same order, within three calls of
    [dependencyResolver]. *)
Theorem resolveDeps_of_its_result
    (getPackageDeps : string → list string) (fuel fuel' : nat)
    (packageCoordinates result : list string) :
  resolveDeps getPackageDeps fuel packageCoordinates = Some result →
  (3 ≤ fuel')%nat →
  resolveDeps getPackageDeps fuel' result = Some result.
Proof.
  intros Hrun Hfuel.
  apply (dependencyResolver_Inv getPackageDeps packageCoordinates) in Hrun;
    [|apply Inv_first].
  destruct Hrun as [Hnd _ _ Hclosed _].
  assert (Hcl : ∀ c d, c ∈ result → dep getPackageDeps c d → d ∈ result).
  { intros c d Hc Hd. destruct (Hclosed c d Hc Hd) as [?|Hnil]; [done|].
    by apply elem_of_nil in Hnil. }
  destruct fuel' as [|[|[|fuel']]]; [lia..|]. unfold resolveDeps.
  rewrite (new_NoDup result Hnd).
  cbn [dependencyResolver].
  destruct (Z.eqb_spec (JsSet.size result) 0) as [He|He].
  { apply JsSetFacts.size_0 in He. by subst. }
  assert (next_visited (JsSet.new []) result = result) as ->.
  { unfold next_visited. change (JsSet.new [] ++ ?l) with l. by apply new_NoDup. }
  set (e2 := next_enqueued getPackageDeps (JsSet.new []) result).
  assert (He2 : ∀ x, x ∈ e2 → x ∈ result).
  { intros x [(c & Hc & Hd) _]%elem_of_next_enqueued. by eapply Hcl. }
  destruct (Z.eqb_spec (JsSet.size e2) 0) as [_|_]; [done|].
  rewrite (next_visited_subseteq result e2 Hnd He2).
  assert (next_enqueued getPackageDeps result e2 = []) as ->.
  { apply nil_no_elem. intros x [(c & Hc & Hd) Hx]%elem_of_next_enqueued.
    apply Hx. eapply Hcl; [|done]. by apply He2. }
  done.
Qed.

(** X11 at work, on the cycle of the core and the extensions package. *)
Lemma resolveDeps_of_its_result_witness :
  resolveDeps Fixture.cyclic_deps 8 [Fixture.core]
  = Some [Fixture.core; Fixture.extension]
  ∧ resolveDeps Fixture.cyclic_deps 3 [Fixture.core; Fixture.extension]
    = Some [Fixture.core; Fixture.extension].
Proof.
  split; [by vm_compute|].
  apply (resolveDeps_of_its_result Fixture.cyclic_deps 8 3 [Fixture.core]
           [Fixture.core; Fixture.extension]); [by vm_compute|lia].
Defined.

(** X12. [filter(identity)] drops an empty dependency name, but nothing
    filters the input: the empty coordinate is in the result of
    [resolveDeps] exactly when it is among the input coordinates. *)
Theorem empty_coordinate_is_resolved_only_as_input
    (getPackageDeps : string → list string) (fuel : nat)
    (packageCoordinates result : list string) :
  resolveDeps getPackageDeps fuel packageCoordinates = Some result →
  "" ∈ result ↔ "" ∈ packageCoordinates.
Proof.
  intros Hrun.
  apply (dependencyResolver_Inv getPackageDeps packageCoordinates) in Hrun;
    [|apply Inv_first].
  destruct Hrun as [_ Hvisited _ _ Hinputs]. split.
  - intros (r & Hr & Hreach)%Hvisited.
    apply rtc_inv_r in Hreach as [->|(c & _ & _ & Hempty)]; done.
  - intros Hin. destruct (Hinputs "" Hin) as [?|Hnil]; [done|].
    by apply elem_of_nil in Hnil.
Qed.

(** X12 at work: a package that names an empty dependency beside the core
    package. *)
Lemma empty_coordinate_is_resolved_only_as_input_witness :
  resolveDeps (λ c, if decide (c = Fixture.guide) then [""; Fixture.core] else [])
    8 [Fixture.guide]
  = Some [Fixture.guide; Fixture.core]
  ∧ ("" ∈ [Fixture.guide; Fixture.core] ↔ "" ∈ [Fixture.guide]).
Proof.
  split; [by vm_compute|].
  apply (empty_coordinate_is_resolved_only_as_input
           (λ c, if decide (c = Fixture.guide) then [""; Fixture.core] else [])
           8 [Fixture.guide] [Fixture.guide; Fixture.core]).
  by vm_compute.
Defined.

(** X13. [obtainPackageDeps], for dependencies that lie in a finite set,
    returns exactly once each coordinate that the dependencies of the
    package reach, those dependencies included; the package itself is in the
    result only if one of its dependencies reaches it. *)
Theorem obtainPackageDeps_returns_what_the_dependencies_reach
    (getPackageDeps : string → list string) (universe : list string)
    (packageCoordinate : string) (fuel : nat) :
  (∀ c d, d ∈ getPackageDeps c → d ∈ universe) →
  (2 * (length universe + length (getPackageDeps packageCoordinate)) + 2 ≤ fuel)%nat →
  ∃ result,
    obtainPackageDeps getPackageDeps fuel packageCoordinate = Some result
    ∧ NoDup result
    ∧ ∀ c, c ∈ result
           ↔ ∃ d, d ∈ getPackageDeps packageCoordinate
                  ∧ rtc (dep getPackageDeps) d c.
Proof.
  intros Hfinite Hfuel. unfold obtainPackageDeps.
  apply (dependencyResolver_terminates getPackageDeps universe Hfinite
           (getPackageDeps packageCoordinate)).
  - apply Inv_first.
  - pose proof (rounds_left_first universe (getPackageDeps packageCoordinate)). lia.
Qed.

(** X13 at work: the dependencies of the guide. *)
Lemma obtainPackageDeps_returns_what_the_dependencies_reach_witness :
  obtainPackageDeps Fixture.guide_deps 8 Fixture.guide = Some [Fixture.core]
  ∧ ∃ result,
      obtainPackageDeps Fixture.guide_deps 8 Fixture.guide = Some result
      ∧ NoDup result
      ∧ ∀ c, c ∈ result
             ↔ ∃ d, d ∈ Fixture.guide_deps Fixture.guide
                    ∧ rtc (dep Fixture.guide_deps) d c.
Proof.
  split; [by vm_compute|].
  apply (obtainPackageDeps_returns_what_the_dependencies_reach
           Fixture.guide_deps [Fixture.core] Fixture.guide 8).
  - intros c d. unfold Fixture.guide_deps.
    destruct (decide (c = Fixture.guide)); [done|]. by intros ?%elem_of_nil.
  - simpl. lia.
Defined.

(** ** Packages that do not load *)
Section LoadFacts.
Context `{JsonParser}.

Lemma consider_all_unparsable lines : ∀ schemas line,
  line ∈ lines → JSON_parse line = None →
  ∃ e, consider_all Node.consider schemas lines = Throw e.
Proof.
  induction lines as [|l lines IH]; intros schemas line Hin Hparse.
  - by apply elem_of_nil in Hin.
  - cbn [consider_all]. apply elem_of_cons in Hin as [<-|Hin].
    + unfold Node.consider, parse. rewrite Hparse. by eexists.
    + destruct (Node.consider schemas l) as [schemas'|e]; [|by eexists].
      cbn [mbind Completion_bind]. by eapply IH.
Qed.

Lemma after_delimiter_none lines :
  Forall (λ line, is_delimiter line = false) lines → after_delimiter lines = [].
Proof.
  induction 1 as [|line lines Hline _ IH]; [done|].
  cbn [after_delimiter]. by rewrite Hline.
Qed.

End LoadFacts.

(** X14. One entry line that is not JSON fails the whole load, whatever
    the other lines hold: on a status 200, if some line of the text that is
    ended by a line feed, comes after the first line containing
    "fhir-schema/delimiter", is not blank and does not itself contain
    "fhir-schema/delimiter" (the lines of [entry_lines]) does not parse, the
    error is thrown inside the ["data"] listener of the Node
    [loadPackageSchemas], whose promise is then never settled, and the
    browser [loadPackageSchemas] rejects. A line after the delimiter that
    contains "fhir-schema/delimiter" is not parsed and fails nothing. *)
Theorem unparsable_entry_line_fails_the_load `{JsonParser}
    (network : Network) (packageCoordinate : string) (response : Response)
    (line : string) :
  network (buildPackageFileUrl packageCoordinate) = Some response →
  statusCode response = 200 →
  line ∈ entry_lines (text_of (chunks response)) →
  JSON_parse line = None →
  Node.loadPackageSchemas network packageCoordinate = Uncaught
  ∧ Browser.loadPackageSchemas network packageCoordinate = Rejected.
Proof.
  intros Hnet Hstatus Hline Hparse.
  unfold Node.loadPackageSchemas, Browser.loadPackageSchemas.
  rewrite Hnet, Node_load_response, Browser_load_response.
  unfold ok. rewrite Hstatus.
  cbn [Z.eqb Pos.eqb Z.leb Z.compare Pos.compare Pos.compare_cont negb andb].
  change (consider_all Browser.consider) with (consider_all Node.consider).
  destruct (consider_all_unparsable _ empty_object line Hline Hparse) as [e ->].
  done.
Qed.

(** X14 at work: a schema line that is cut short. *)
Lemma unparsable_entry_line_fails_the_load_witness :
  Node.loadPackageSchemas (Fixture.registry Fixture.core Fixture.broken_package)
    Fixture.core = Uncaught
  ∧ Browser.loadPackageSchemas (Fixture.registry Fixture.core Fixture.broken_package)
      Fixture.core = Rejected.
Proof.
  apply (unparsable_entry_line_fails_the_load
           (Fixture.registry Fixture.core Fixture.broken_package) Fixture.core
           Fixture.broken_package Fixture.cut_line).
  - by vm_compute.
  - by vm_compute.
  - refine (bool_decide_unpack _ _). by vm_compute.
  - by vm_compute.
Defined.

(** X15. A package text in which no line ended by a line feed contains
    "fhir-schema/delimiter" brings no schema: on a status 200 and a stream
    that does not fail, both [loadPackageSchemas] resolve with the empty
    map, and no line is parsed, so lines that are not JSON do no harm
    there. *)
Theorem package_without_delimiter_loads_nothing `{JsonParser}
    (network : Network) (packageCoordinate : string) (response : Response) :
  network (buildPackageFileUrl packageCoordinate) = Some response →
  statusCode response = 200 →
  fails response = false →
  Forall (λ line, is_delimiter line = false)
    (terminated_lines (text_of (chunks response))) →
  Node.loadPackageSchemas network packageCoordinate = Resolved empty_object
  ∧ Browser.loadPackageSchemas network packageCoordinate = Resolved empty_object.
Proof.
  intros Hnet Hstatus Hfails Hlines.
  unfold Node.loadPackageSchemas, Browser.loadPackageSchemas.
  rewrite Hnet, Node_load_response, Browser_load_response.
  unfold ok, entry_lines. rewrite Hstatus, Hfails, after_delimiter_none by done.
  done.
Qed.

(** X15 at work: a package of StructureDefinitions only. *)
Lemma package_without_delimiter_loads_nothing_witness :
  Node.loadPackageSchemas
    (Fixture.registry Fixture.core Fixture.undelimited_package) Fixture.core
  = Resolved empty_object
  ∧ Browser.loadPackageSchemas
      (Fixture.registry Fixture.core Fixture.undelimited_package) Fixture.core
    = Resolved empty_object.
Proof.
  apply (package_without_delimiter_loads_nothing
           (Fixture.registry Fixture.core Fixture.undelimited_package)
           Fixture.core Fixture.undelimited_package).
  - by vm_compute.
  - by vm_compute.
  - by vm_compute.
  - refine (bool_decide_unpack _ _). by vm_compute.
Defined.

(** ** The context made from the loaded maps *)
Section ContextFacts.
Context `{JsonParser}.

Lemma proto_obj_set (o : JsObject) name v :
  name ≠ "__proto__" → proto (obj_set o name v) = proto o.
Proof. intros Hname. unfold obj_set. by rewrite decide_False. Qed.

(** A source without a property [__proto__] of its own leaves the
    prototype of the target as it is. *)
Lemma proto_Object_assign (target source : JsObject) :
  own source !! "__proto__" = None →
  proto (Object_assign target source) = proto target.
Proof.
  unfold Object_assign.
  apply (map_fold_weak_ind
           (λ (r : JsObject) (m : gmap string json),
              m !! "__proto__" = None → proto r = proto target)).
  - done.
  - intros name v m r _ IH Hnone.
    apply lookup_insert_None in Hnone as [Hm Hname].
    rewrite proto_obj_set by done. auto.
Qed.

Lemma proto_merged (schemaArrays : list JsObject) : ∀ allSchemas : JsObject,
  (∀ schemas, schemas ∈ schemaArrays → own schemas !! "__proto__" = None) →
  proto (foldl Object_assign allSchemas schemaArrays) = proto allSchemas.
Proof.
  induction schemaArrays as [|schemas schemaArrays IH]; intros allSchemas Hnone.
  - done.
  - cbn [foldl]. rewrite IH by (intros; apply Hnone; by right).
    apply proto_Object_assign, Hnone. left.
Qed.

(** What the merged map yields for a name. *)
Lemma obj_get_merged (schemaArrays : list JsObject) schemaName :
  (∀ schemas, schemas ∈ schemaArrays → own schemas !! "__proto__" = None) →
  schemaName ≠ "__proto__" →
  obj_get (foldl Object_assign empty_object schemaArrays) schemaName
  = match last (omap (λ schemas : JsObject, own schemas !! schemaName)
                  schemaArrays) with
    | Some schema => Value (Json schema)
    | None =>
        if bool_decide (schemaName ∈ Object_prototype_names)
        then ObjectPrototypeMember schemaName
        else Value Undefined
    end.
Proof.
  intros Hnone Hname. unfold obj_get.
  rewrite own_merged, proto_merged by done.
  destruct (last _); [done|]. cbn [empty_object own proto].
  rewrite lookup_empty. unfold Object_prototype_get. by rewrite decide_False.
Qed.

Lemma Browser_createContext_resolved (network : Network) getPackageDeps fuel
    packageCoordinates (ctx : FhirSchemaContext) :
  Browser.createContext network getPackageDeps fuel packageCoordinates
  = Some (Resolved ctx) →
  ∃ allPackages schemaArrays,
    resolveDeps getPackageDeps fuel packageCoordinates = Some allPackages
    ∧ Promise_all (Browser.loadPackageSchemas network <$> allPackages)
      = Resolved schemaArrays
    ∧ ∀ schemaName,
        schemaResolver ctx schemaName
        = obj_get (foldl Object_assign empty_object schemaArrays) schemaName.
Proof.
  unfold Browser.createContext.
  destruct (resolveDeps _ _ _) as [allPackages|] eqn:Hdeps; [|done].
  cbn [mbind option_bind].
  destruct (Promise_all _) as [schemaArrays| | |] eqn:Hall; try done.
  intros [= <-]. by exists allPackages, schemaArrays.
Qed.

(** [Promise.all] resolves with the results in the order of the promises. *)
Lemma Promise_all_Resolved {A B} (f : A → Outcome B) (l : list A) (results : list B) :
  Promise_all (f <$> l) = Resolved results ↔
  Forall2 (λ a b, f a = Resolved b) l results.
Proof.
  split.
  - revert results. induction l as [|a l IH]; intros results;
      cbn [fmap list_fmap Promise_all].
    + intros [= <-]. constructor.
    + destruct (f a) as [b| | |] eqn:Hfa, (Promise_all (f <$> l)) as [bs| | |];
        try done.
      intros [= <-]. constructor; auto.
  - induction 1 as [|a b l results Hab _ IH]; [done|].
    cbn [fmap list_fmap Promise_all]. rewrite Hab.
    fold (f <$> l). by rewrite IH.
Qed.

Lemma Promise_all_all_Rejected {A B} (f : A → Outcome B) (l : list A) :
  l ≠ [] → (∀ a, a ∈ l → f a = Rejected) → Promise_all (f <$> l) = Rejected.
Proof.
  induction l as [|a l IH]; [done|]. intros _ Hall.
  cbn [fmap list_fmap Promise_all]. rewrite (Hall a) by left.
  destruct l as [|a' l]; [done|].
  fold (f <$> (a' :: l)). rewrite IH; [done|done|].
  intros; apply Hall; by right.
Qed.

Lemma Promise_all_all_Resolved {A B} (f : A → Outcome B) (l : list A) (b : B) :
  (∀ a, a ∈ l → f a = Resolved b) →
  Promise_all (f <$> l) = Resolved (replicate (length l) b).
Proof.
  induction l as [|a l IH]; [done|]. intros Hall.
  cbn [fmap list_fmap Promise_all length replicate]. rewrite (Hall a) by left.
  fold (f <$> l). rewrite IH; [done|]. intros; apply Hall; by right.
Qed.

Lemma Object_assign_empty (target : JsObject) :
  Object_assign target empty_object = target.
Proof. unfold Object_assign, empty_object. cbn [own]. by rewrite map_fold_empty. Qed.

Lemma merged_empty (n : nat) (allSchemas : JsObject) :
  foldl Object_assign allSchemas (replicate n empty_object) = allSchemas.
Proof.
  induction n as [|n IH]; [done|]. cbn [replicate foldl].
  by rewrite Object_assign_empty.
Qed.

Variable load : string → Outcome JsObject.

(** Among packages of which one holds a key, the last map that has the key
    is the map of that package. *)
Lemma last_of_the_only_holder (dependency key : string) (loaded : JsObject)
    (schema : json) (packages : list string) (schemaArrays : list JsObject) :
  Forall2 (λ c schemas, load c = Resolved schemas) packages schemaArrays →
  load dependency = Resolved loaded →
  own loaded !! key = Some schema →
  (∀ c schemas, c ∈ packages → c ≠ dependency → load c = Resolved schemas →
     own schemas !! key = None) →
  last (omap (λ schemas : JsObject, own schemas !! key) schemaArrays)
  = if bool_decide (dependency ∈ packages) then Some schema else None.
Proof.
  intros Hall Hd Hkey.
  induction Hall as [|c schemas packages schemaArrays Hc _ IH]; intros Hothers.
  - done.
  - cbn [omap list_omap].
    fold (omap (λ schemas : JsObject, own schemas !! key) schemaArrays).
    assert (IH' := IH (λ c' s Hin, Hothers c' s (list_elem_of_further _ _ _ Hin))).
    destruct (decide (c = dependency)) as [->|Hne].
    + rewrite Hd in Hc. injection Hc as <-. rewrite Hkey, last_cons, IH'.
      rewrite (bool_decide_eq_true_2 (dependency ∈ dependency :: packages)) by left.
      by case_bool_decide.
    + rewrite (Hothers c schemas) by (done || left). rewrite IH'.
      apply option_eq. intros x.
      repeat case_bool_decide; rewrite elem_of_cons in *; naive_solver.
Qed.

Lemma merged_from_later_package (requestedPackages rest : list string)
    (schemaArrays : list JsObject) (dependency key : string) (loaded : JsObject)
    (schema : json) :
  Promise_all (load <$> requestedPackages ++ rest) = Resolved schemaArrays →
  dependency ∈ rest →
  load dependency = Resolved loaded →
  own loaded !! key = Some schema →
  key ≠ "__proto__" →
  (∀ c schemas, c ∈ rest → c ≠ dependency → load c = Resolved schemas →
     own schemas !! key = None) →
  obj_get (foldl Object_assign empty_object schemaArrays) key = Value (Json schema).
Proof.
  intros Hall%Promise_all_Resolved Hin Hd Hkey Hproto Hothers.
  apply List.Forall2_app_inv_l in Hall as (first & later & _ & Hlater & ->).
  apply obj_get_own. rewrite own_merged by done.
  rewrite omap_app, last_app.
  rewrite (last_of_the_only_holder dependency key loaded schema rest later) by done.
  by rewrite bool_decide_eq_true_2.
Qed.

End ContextFacts.

(** X16. What the resolver answers. When [createContext] resolves, its
    resolver reads the maps loaded from the resolved packages, merged in
    that order. If no loaded map has a property [__proto__] of its own, then
    for every name but [__proto__] the resolver yields the schema that the
    last map with that key holds; for a name that is no key of any map it
    yields [undefined], unless the name is a property of [Object.prototype]
    ([constructor], [toString], ...), which it then yields. *)
Theorem schemaResolver_reads_the_merged_maps `{JsonParser}
    (network : Network) (getPackageDeps : string → list string) (fuel : nat)
    (packageCoordinates : list string) (ctx : FhirSchemaContext) :
  Node.createContext network getPackageDeps fuel packageCoordinates
  = Some (Resolved ctx)
  ∨ Browser.createContext network getPackageDeps fuel packageCoordinates
    = Some (Resolved ctx) →
  ∃ allPackages schemaArrays,
    resolveDeps getPackageDeps fuel packageCoordinates = Some allPackages
    ∧ (Promise_all (Node.loadPackageSchemas network <$> allPackages)
       = Resolved schemaArrays
       ∨ Promise_all (Browser.loadPackageSchemas network <$> allPackages)
         = Resolved schemaArrays)
    ∧ ((∀ schemas, schemas ∈ schemaArrays → own schemas !! "__proto__" = None) →
       ∀ schemaName, schemaName ≠ "__proto__" →
         schemaResolver ctx schemaName
         = match last (omap (λ schemas : JsObject, own schemas !! schemaName)
                         schemaArrays) with
           | Some schema => Value (Json schema)
           | None =>
               if bool_decide (schemaName ∈ Object_prototype_names)
               then ObjectPrototypeMember schemaName
               else Value Undefined
           end).
Proof.
  intros [Hctx|Hctx].
  - apply createContext_resolved in Hctx
      as (allPackages & schemaArrays & Hdeps & Hall & Hctx).
    exists allPackages, schemaArrays. split_and!; [done|by left|].
    intros Hnone schemaName Hname. rewrite Hctx. by apply obj_get_merged.
  - apply Browser_createContext_resolved in Hctx
      as (allPackages & schemaArrays & Hdeps & Hall & Hctx).
    exists allPackages, schemaArrays. split_and!; [done|by right|].
    intros Hnone schemaName Hname. rewrite Hctx. by apply obj_get_merged.
Qed.

(** X16 at work: the context of the guide. *)
Lemma schemaResolver_reads_the_merged_maps_witness :
  ∃ allPackages schemaArrays,
    resolveDeps Fixture.guide_deps 8 [Fixture.guide] = Some allPackages
    ∧ (Promise_all (Node.loadPackageSchemas Fixture.guide_registry <$> allPackages)
       = Resolved schemaArrays
       ∨ Promise_all (Browser.loadPackageSchemas Fixture.guide_registry <$> allPackages)
         = Resolved schemaArrays)
    ∧ ((∀ schemas, schemas ∈ schemaArrays → own schemas !! "__proto__" = None) →
       ∀ schemaName, schemaName ≠ "__proto__" →
         schemaResolver Fixture.guide_context schemaName
         = match last (omap (λ schemas : JsObject, own schemas !! schemaName)
                         schemaArrays) with
           | Some schema => Value (Json schema)
           | None =>
               if bool_decide (schemaName ∈ Object_prototype_names)
               then ObjectPrototypeMember schemaName
               else Value Undefined
           end).
Proof.
  apply (schemaResolver_reads_the_merged_maps Fixture.guide_registry
           Fixture.guide_deps 8 [Fixture.guide] Fixture.guide_context).
  left. by vm_compute.
Defined.

(** X17. A dependency overrides the packages that were asked for. The
    packages are merged in the order of [resolveDeps], inputs first, and
    later packages override earlier ones: when a package that is not among
    the input coordinates holds a key (other than [__proto__]) that no other
    package beside the inputs holds, the resolver yields the schema of that
    package for the key, whatever the input packages hold under it. *)
Theorem dependency_overrides_the_requested_packages `{JsonParser}
    (network : Network) (getPackageDeps : string → list string) (fuel : nat)
    (packageCoordinates allPackages : list string) (ctx : FhirSchemaContext)
    (load : string → Outcome JsObject)
    (dependency key : string) (loaded : JsObject) (schema : json) :
  resolveDeps getPackageDeps fuel packageCoordinates = Some allPackages →
  (Node.createContext network getPackageDeps fuel packageCoordinates
   = Some (Resolved ctx)
   ∧ load = Node.loadPackageSchemas network)
  ∨ (Browser.createContext network getPackageDeps fuel packageCoordinates
     = Some (Resolved ctx)
     ∧ load = Browser.loadPackageSchemas network) →
  dependency ∈ allPackages →
  dependency ∉ packageCoordinates →
  load dependency = Resolved loaded →
  own loaded !! key = Some schema →
  key ≠ "__proto__" →
  (∀ c schemas, c ∈ allPackages → c ∉ packageCoordinates → c ≠ dependency →
     load c = Resolved schemas → own schemas !! key = None) →
  schemaResolver ctx key = Value (Json schema).
Proof.
  intros Hdeps Hctx Hin Hnot Hload Hkey Hproto Hothers.
  assert (∃ schemaArrays,
            Promise_all (load <$> allPackages) = Resolved schemaArrays
            ∧ schemaResolver ctx key
              = obj_get (foldl Object_assign empty_object schemaArrays) key)
    as (schemaArrays & Hall & ->).
  { destruct Hctx as [[Hctx ->]|[Hctx ->]].
    - apply createContext_resolved in Hctx
        as (allPackages' & schemaArrays & Hdeps' & Hall & Hctx).
      rewrite Hdeps in Hdeps'. injection Hdeps' as <-. by exists schemaArrays.
    - apply Browser_createContext_resolved in Hctx
        as (allPackages' & schemaArrays & Hdeps' & Hall & Hctx).
      rewrite Hdeps in Hdeps'. injection Hdeps' as <-. by exists schemaArrays. }
  pose proof Hdeps as Hnd.
  apply (dependencyResolver_Inv getPackageDeps packageCoordinates) in Hnd;
    [|apply Inv_first].
  apply inv_nodup in Hnd.
  apply resolveDeps_extends in Hdeps as [rest ->].
  apply NoDup_app in Hnd as (_ & Hdisjoint & _).
  assert (Hrest : ∀ c, c ∈ rest → c ∉ packageCoordinates).
  { intros c Hc Hpc. apply (Hdisjoint c); [|done].
    by rewrite JsSetFacts.elem_of_new. }
  apply (merged_from_later_package load (JsSet.new packageCoordinates) rest
           schemaArrays dependency key loaded schema); try done.
  - apply elem_of_app in Hin as [Hin|Hin]; [|done].
    rewrite JsSetFacts.elem_of_new in Hin. by destruct Hnot.
  - intros c schemas Hc Hne. apply Hothers; [|auto|done].
    apply elem_of_app. by right.
Qed.

(** X17 at work: the guide and the core package both bring a schema named
    [string]; asked for the guide, the resolver yields the one of the core
    package. *)
Lemma dependency_overrides_the_requested_packages_witness :
  own Fixture.core_schemas !! "string" = Some (Fixture.parsed Fixture.string_schema)
  ∧ loaded_under (Node.loadPackageSchemas Fixture.guide_registry Fixture.guide)
      "string"
    = Some (Fixture.parsed Fixture.guide_string_schema)
  ∧ schemaResolver Fixture.guide_context "string"
    = Value (Json (Fixture.parsed Fixture.string_schema)).
Proof.
  split; [by vm_compute|]. split; [by vm_compute|].
  apply (dependency_overrides_the_requested_packages Fixture.guide_registry
           Fixture.guide_deps 8 [Fixture.guide] [Fixture.guide; Fixture.core]
           Fixture.guide_context
           (Node.loadPackageSchemas Fixture.guide_registry)
           Fixture.core "string" Fixture.core_schemas
           (Fixture.parsed Fixture.string_schema)).
  - by vm_compute.
  - left. split; [by vm_compute|done].
  - right. left.
  - intros Hin%list_elem_of_singleton. by vm_compute in Hin.
  - by vm_compute.
  - by vm_compute.
  - done.
  - intros c schemas Hc Hnot Hne.
    apply elem_of_cons in Hc as [->|Hc]; [destruct Hnot; left|].
    by apply list_elem_of_singleton in Hc.
Defined.

(** X18. Packages that the registry lacks fail [createContext] in Node and
    pass unnoticed in the browser: when every resolved package gets a
    response that is not OK, the Node [createContext] rejects, and the
    browser [createContext] resolves with a context that knows no schema
    (its resolver answers as the empty object does). *)
Theorem context_of_packages_the_registry_lacks `{JsonParser}
    (network : Network) (getPackageDeps : string → list string) (fuel : nat)
    (packageCoordinates allPackages : list string) :
  resolveDeps getPackageDeps fuel packageCoordinates = Some allPackages →
  allPackages ≠ [] →
  (∀ packageCoordinate, packageCoordinate ∈ allPackages →
     ∃ response,
       network (buildPackageFileUrl packageCoordinate) = Some response
       ∧ ok response = false) →
  Node.createContext network getPackageDeps fuel packageCoordinates = Some Rejected
  ∧ ∃ ctx,
      Browser.createContext network getPackageDeps fuel packageCoordinates
      = Some (Resolved ctx)
      ∧ ∀ schemaName,
          schemaResolver ctx schemaName = obj_get empty_object schemaName.
Proof.
  intros Hdeps Hne Hlacks.
  unfold Node.createContext, Browser.createContext. rewrite Hdeps.
  cbn [mbind option_bind]. split.
  - rewrite Promise_all_all_Rejected; [done|done|].
    intros c (response & Hnet & Hok)%Hlacks.
    unfold Node.loadPackageSchemas. rewrite Hnet, Node_load_response.
    unfold ok in Hok.
    destruct (Z.eqb_spec (statusCode response) 200) as [E|_]; [|done].
    by rewrite E in Hok.
  - rewrite (Promise_all_all_Resolved _ _ empty_object).
    + eexists. split; [done|]. intros schemaName. cbn [schemaResolver].
      by rewrite merged_empty.
    + intros c (response & Hnet & Hok)%Hlacks.
      unfold Browser.loadPackageSchemas. rewrite Hnet, Browser_load_response.
      by rewrite Hok.
Qed.

(** X18 at work: the registry answers 404 for the core package. *)
Lemma context_of_packages_the_registry_lacks_witness :
  Node.createContext (Fixture.registry Fixture.core Fixture.not_found)
    Fixture.no_deps 4 [Fixture.core] = Some Rejected
  ∧ ∃ ctx,
      Browser.createContext (Fixture.registry Fixture.core Fixture.not_found)
        Fixture.no_deps 4 [Fixture.core] = Some (Resolved ctx)
      ∧ ∀ schemaName,
          schemaResolver ctx schemaName = obj_get empty_object schemaName.
Proof.
  apply (context_of_packages_the_registry_lacks
           (Fixture.registry Fixture.core Fixture.not_found)
           Fixture.no_deps 4 [Fixture.core] [Fixture.core]).
  - by vm_compute.
  - done.
  - intros c ->%list_elem_of_singleton. exists Fixture.not_found.
    split; by vm_compute.
Defined.

Section SameTextDeps.
Context `{JsonParser}.

(** On responses with status 200 and the same text, the browser
    [getPackageDeps] resolves with what the Node one resolves with. *)
Lemma same_text_same_deps (https_get fetch : Network) (packageCoordinate : string)
    (node_response browser_response : Response) (packageDeps : list json) :
  https_get (buildPackageFileUrl packageCoordinate) = Some node_response →
  fetch (buildPackageFileUrl packageCoordinate) = Some browser_response →
  statusCode node_response = 200 →
  statusCode browser_response = 200 →
  text_of (chunks browser_response) = text_of (chunks node_response) →
  PackageDeps.getPackageDeps (Node.getPackageMeta https_get) packageCoordinate
  = Resolved packageDeps →
  PackageDeps.getPackageDeps (Browser.getPackageMeta fetch) packageCoordinate
  = Resolved packageDeps.
Proof.
  intros Hnode Hbrowser Hsn Hsb Htext.
  unfold PackageDeps.getPackageDeps, Node.getPackageMeta, Browser.getPackageMeta.
  rewrite (same_text_same_line https_get fetch _ 1 node_response browser_response);
    [|done|done|congruence|done|by left].
  by destruct (Node.getSpecificLineFromNdjson https_get _ 1).
Qed.

End SameTextDeps.

(** X19. Let the coordinates that [resolveDeps] returns be given, and let
    every one of them be a package for which the Node [getPackageDeps]
    resolves with the dependencies that the resolution follows, both
    requests have status 200 and streams that do not fail, the decompressed
    bytes are the same in both files, every chunk that Node receives decodes
    on its own to text, and the entry lines are well formed. Then the
    browser [getPackageDeps] resolves with the same dependencies for each of
    these packages, [createContext] resolves in both files, and the two
    resolvers answer alike for every name. *)
Theorem Node_and_browser_contexts_resolve_alike `{JsonParser}
    (https_get fetch : Network) (getPackageDeps : string → list string)
    (fuel : nat) (packageCoordinates allPackages : list string) :
  resolveDeps getPackageDeps fuel packageCoordinates = Some allPackages →
  (∀ packageCoordinate, packageCoordinate ∈ allPackages →
     PackageDeps.getPackageDeps (Node.getPackageMeta https_get) packageCoordinate
     = Resolved (JString <$> getPackageDeps packageCoordinate)
     ∧ ∃ node_download browser_download node_response browser_response,
         Decoding.Node_response node_download = Some node_response
         ∧ Decoding.Browser_response browser_download = Some browser_response
         ∧ https_get (buildPackageFileUrl packageCoordinate) = Some node_response
         ∧ fetch (buildPackageFileUrl packageCoordinate) = Some browser_response
         ∧ mjoin (buffers node_download) = mjoin (buffers browser_download)
         ∧ status node_download = 200
         ∧ status browser_download = 200
         ∧ broken node_download = false
         ∧ broken browser_download = false
         ∧ ∀ line, line ∈ entry_lines (text_of (chunks node_response)) →
                   well_formed_entry line) →
  (∀ packageCoordinate, packageCoordinate ∈ allPackages →
     PackageDeps.getPackageDeps (Browser.getPackageMeta fetch) packageCoordinate
     = Resolved (JString <$> getPackageDeps packageCoordinate))
  ∧ ∃ node_ctx browser_ctx,
      Node.createContext https_get getPackageDeps fuel packageCoordinates
      = Some (Resolved node_ctx)
      ∧ Browser.createContext fetch getPackageDeps fuel packageCoordinates
        = Some (Resolved browser_ctx)
      ∧ ∀ schemaName,
          schemaResolver node_ctx schemaName = schemaResolver browser_ctx schemaName.
Proof.
  intros Hdeps Hpackages. split.
  - intros c (Hlink & nd & bd & nr & br & Hnd & Hbd & Hnode & Hbrowser & Hbytes
              & Hsn & Hsb & _)%Hpackages.
    destruct (decoded_alike _ _ _ _ Hnd Hbd Hbytes) as (Hs & Hf & Hs' & Hf' & Ht).
    apply (same_text_same_deps https_get fetch c nr br);
      [done|done|congruence|congruence|done|done].
  - assert (∃ schemaArrays,
              Forall2 (λ c s, Node.loadPackageSchemas https_get c = Resolved s)
                allPackages schemaArrays
              ∧ Forall2 (λ c s, Browser.loadPackageSchemas fetch c = Resolved s)
                  allPackages schemaArrays) as (schemaArrays & Hnode & Hbrowser).
    { clear Hdeps. induction allPackages as [|c allPackages IH].
      - exists []. split; constructor.
      - destruct IH as (schemaArrays & Hnode & Hbrowser).
        { intros c' Hc'. apply Hpackages. by right. }
        destruct (Hpackages c)
          as (_ & nd & bd & nr & br & Hnd & Hbd & Hn & Hb & Hbytes
              & Hsn & Hsb & Hfn & Hfb & Hwf); [left|].
        destruct (decoded_alike _ _ _ _ Hnd Hbd Hbytes)
          as (Hs & Hf & Hs' & Hf' & Ht).
        destruct (same_text_same_maps https_get fetch c nr br)
          as (schemas & Hln & Hlb);
          [done|done|congruence|congruence|congruence|congruence|done|done|].
        exists (schemas :: schemaArrays). split; by constructor. }
    apply Promise_all_Resolved in Hnode, Hbrowser.
    unfold Node.createContext, Browser.createContext. rewrite Hdeps.
    cbn [mbind option_bind]. rewrite Hnode, Hbrowser. by eexists _, _.
Qed.

(** X19 at work: the guide and, as its dependency, the package with the
    schema [café], which the browser receives cut inside [é]. *)
Lemma Node_and_browser_contexts_resolve_alike_witness :
  (∀ packageCoordinate, packageCoordinate ∈ [Fixture.guide; Fixture.core] →
     PackageDeps.getPackageDeps (Browser.getPackageMeta Fixture.Browser_registry)
       packageCoordinate
     = Resolved (JString <$> Fixture.guide_deps packageCoordinate))
  ∧ ∃ node_ctx browser_ctx,
      Node.createContext Fixture.Node_registry Fixture.guide_deps 8 [Fixture.guide]
      = Some (Resolved node_ctx)
      ∧ Browser.createContext Fixture.Browser_registry Fixture.guide_deps 8
          [Fixture.guide]
        = Some (Resolved browser_ctx)
      ∧ ∀ schemaName,
          schemaResolver node_ctx schemaName = schemaResolver browser_ctx schemaName.
Proof.
  apply (Node_and_browser_contexts_resolve_alike
           Fixture.Node_registry Fixture.Browser_registry
           Fixture.guide_deps 8 [Fixture.guide] [Fixture.guide; Fixture.core]);
    [by vm_compute|].
  intros c Hc. apply elem_of_cons in Hc as [->|Hc];
    [|apply list_elem_of_singleton in Hc as ->].
  - split; [by vm_compute|].
    exists Fixture.guide_download, Fixture.guide_download,
      (Fixture.Node_decoded Fixture.guide_download),
      (Fixture.Browser_decoded Fixture.guide_download).
    split_and!; [by vm_compute..|].
    intros line Hline.
    assert (Hlines : entry_lines (text_of (chunks
                       (Fixture.Node_decoded Fixture.guide_download)))
                     = [Fixture.guide_string_schema]) by (by vm_compute).
    rewrite Hlines in Hline. apply list_elem_of_singleton in Hline as ->.
    eexists. split_and!; [by vm_compute|done|].
    intros name v Hname Hget.
    apply elem_of_cons in Hname as [->|Hname];
      [|apply list_elem_of_singleton in Hname as ->];
      vm_compute in Hget; injection Hget as <-; intros Htruthy;
      [by eexists|done].
  - split; [by vm_compute|].
    exists Fixture.cafe_whole, Fixture.cafe_cut,
      (Fixture.Node_decoded Fixture.cafe_whole),
      (Fixture.Browser_decoded Fixture.cafe_cut).
    split_and!; [by vm_compute..|].
    intros line Hline.
    assert (Hlines : entry_lines (text_of (chunks
                       (Fixture.Node_decoded Fixture.cafe_whole)))
                     = [Fixture.q "{'name':'caf" +:+ String "233"
                          (Fixture.q "','kind':'primitive-type'}")])
      by (by vm_compute).
    rewrite Hlines in Hline. apply list_elem_of_singleton in Hline as ->.
    eexists. split_and!; [by vm_compute|done|].
    intros name v Hname Hget.
    apply elem_of_cons in Hname as [->|Hname];
      [|apply list_elem_of_singleton in Hname as ->];
      vm_compute in Hget; injection Hget as <-; intros Htruthy;
      [by eexists|done].
Defined.

(** ** The prototype of a loaded map *)
Section Prototype.
Context `{JsonParser}.

(** An assignment to a key other than [__proto__] touches neither the
    prototype nor the property [__proto__]. *)
Lemma obj_set_keeps_prototype (o : JsObject) name v :
  name ≠ "__proto__" →
  proto (obj_set o name v) = proto o
  ∧ own (obj_set o name v) !! "__proto__" = own o !! "__proto__".
Proof.
  intros Hname. unfold obj_set. rewrite decide_False by done. cbn [own proto].
  by rewrite lookup_insert_ne.
Qed.

Lemma consider_keeps_prototype schemas line schemas' :
  Node.consider schemas line = Normal schemas' →
  (∀ schema, JSON_parse line = Some schema → retained schema = true →
     ¬ stored_under schema "__proto__") →
  proto schemas' = proto schemas
  ∧ own schemas' !! "__proto__" = own schemas !! "__proto__".
Proof.
  intros (schema & Hparse & ->)%consider_Normal Hnot.
  destruct (retained schema) eqn:Hretained; [|done].
  specialize (Hnot schema Hparse Hretained). unfold stored_under in Hnot. cbv zeta.
  destruct (key_of schema "name") as [kn|] eqn:Hn,
           (key_of schema "url") as [ku|] eqn:Hu.
  - destruct (obj_set_keeps_prototype schemas kn schema) as [Hp1 Ho1];
      [naive_solver|].
    destruct (obj_set_keeps_prototype (obj_set schemas kn schema) ku schema)
      as [Hp2 Ho2]; [naive_solver|].
    by rewrite Hp2, Ho2, Hp1, Ho1.
  - apply obj_set_keeps_prototype. naive_solver.
  - apply obj_set_keeps_prototype. naive_solver.
  - done.
Qed.

Lemma consider_all_keeps_prototype lines : ∀ schemas schemas',
  consider_all Node.consider schemas lines = Normal schemas' →
  (∀ schema, schema ∈ omap JSON_parse lines → retained schema = true →
     ¬ stored_under schema "__proto__") →
  proto schemas' = proto schemas
  ∧ own schemas' !! "__proto__" = own schemas !! "__proto__".
Proof.
  induction lines as [|line lines IH]; intros schemas schemas' Hall Hnot.
  - by injection Hall as <-.
  - cbn [consider_all] in Hall.
    destruct (Node.consider schemas line) as [schemas1|] eqn:Hline; [|done].
    cbn [mbind Completion_bind] in Hall.
    cbn [omap list_omap] in Hnot. fold (omap JSON_parse lines) in Hnot.
    destruct (consider_keeps_prototype _ _ _ Hline) as [Hp Ho].
    { intros schema Hparse. apply Hnot. rewrite Hparse. left. }
    destruct (IH _ _ Hall) as [Hp' Ho'].
    { intros schema Hin. apply Hnot. destruct (JSON_parse line); [by right|done]. }
    by rewrite Hp', Ho', Hp, Ho.
Qed.

End Prototype.

(** X20. A loaded map keeps [Object.prototype] as its prototype, and gets
    no property [__proto__] of its own, unless a schema asks for it: when
    no retained schema of the package has [__proto__] as the key of its
    [name] or of its [url], the map that [loadPackageSchemas] resolves with,
    in either file, still has the prototype it was created with. *)
Theorem loaded_map_keeps_Object_prototype `{JsonParser}
    (network : Network) (packageCoordinate : string)
    (response : Response) (schemas : JsObject) :
  network (buildPackageFileUrl packageCoordinate) = Some response →
  Node.loadPackageSchemas network packageCoordinate = Resolved schemas
  ∨ Browser.loadPackageSchemas network packageCoordinate = Resolved schemas →
  (∀ schema, schema ∈ omap JSON_parse (entry_lines (text_of (chunks response))) →
     retained schema = true → ¬ stored_under schema "__proto__") →
  proto schemas = ProtoObjectPrototype
  ∧ own schemas !! "__proto__" = None
  ∧ obj_get schemas "__proto__" = ObjectPrototype.
Proof.
  intros Hnet Hloaded Hnot.
  assert (schemas = empty_object
          ∨ consider_all Node.consider empty_object
              (entry_lines (text_of (chunks response))) = Normal schemas) as Hall.
  { unfold Node.loadPackageSchemas, Browser.loadPackageSchemas in Hloaded.
    rewrite Hnet, Node_load_response, Browser_load_response in Hloaded.
    change (consider_all Browser.consider) with (consider_all Node.consider) in Hloaded.
    destruct (consider_all _ _ _) as [loaded|e].
    - destruct Hloaded as [Hl|Hl].
      + destruct (negb (statusCode response =? 200)); [done|].
        destruct (fails response); [done|]. right. by injection Hl as ->.
      + destruct (negb (ok response)); [left; by injection Hl as <-|].
        destruct (fails response); [done|]. right. by injection Hl as ->.
    - destruct Hloaded as [Hl|Hl].
      + by destruct (negb (statusCode response =? 200)).
      + destruct (negb (ok response)); [left; by injection Hl as <-|done]. }
  assert (proto schemas = ProtoObjectPrototype ∧ own schemas !! "__proto__" = None)
    as [Hp Ho].
  { destruct Hall as [->|Hall]; [done|].
    destruct (consider_all_keeps_prototype _ _ _ Hall Hnot) as [-> ->]. done. }
  split_and!; [done..|]. unfold obj_get, Object_prototype_get.
  rewrite Ho, Hp, decide_True by done. done.
Qed.

(** X20 at work: the map loaded from the core package. *)
Lemma loaded_map_keeps_Object_prototype_witness :
  proto Fixture.core_schemas = ProtoObjectPrototype
  ∧ own Fixture.core_schemas !! "__proto__" = None
  ∧ obj_get Fixture.core_schemas "__proto__" = ObjectPrototype.
Proof.
  apply (loaded_map_keeps_Object_prototype Fixture.guide_registry Fixture.core
           Fixture.core_package Fixture.core_schemas).
  - by vm_compute.
  - left. by vm_compute.
  - intros schema Hschema _.
    assert (Hparsed : omap JSON_parse
                        (entry_lines (text_of (chunks Fixture.core_package)))
                      = [Fixture.parsed Fixture.string_schema]) by (by vm_compute).
    rewrite Hparsed in Hschema. apply list_elem_of_singleton in Hschema as ->.
    intros [Hkey|Hkey]; by vm_compute in Hkey.
Defined.
